(** * Storage registry and virtual-path routing of alist

    A shallow embedding of [internal/operations] (the storage registry, the
    longest-match resolver, the balancer, the virtual directory synthesizer
    and the create / update / delete lifecycle) and of [internal/db]
    (the storage repository on top of gorm), followed by the properties of
    the routing core.

    Go values are modelled as follows.
    - [string] is a byte string: Rocq's [string], compared bytewise.
    - [int] is a [Z]; the one addition that could leave the 64-bit range
      is wrapped explicitly ([int_wrap]).
    - [driver.Driver] is an interface implemented by pointer types: a
      driver value is a location [loc] into a heap of driver objects, so
      that [Init] and [Drop] mutate the object the registry points to.
    - [generic_sync.MapOf] is a [gmap]; the order in which [Range] and
      [Values] visit it is not specified, so the functions that iterate
      take the visited sequence as an argument ([RangeOf], [ValuesOf]).
    - an [error] result is an [option error], [None] being [nil]. *)

From Stdlib Require Import ZArith Lia String Ascii List OrderedTypeEx.
From stdpp Require Import base gmap list strings sorting pretty.

Local Open Scope string_scope.
Local Open Scope list_scope.
Local Open Scope Z_scope.

(** ** Go's [strings] package, as far as the routing code uses it *)

Module Strings.

(** [strings.HasPrefix s prefix] *)
Fixpoint HasPrefix (s prefix : string) : bool :=
  match prefix, s with
  | EmptyString, _ => true
  | String _ _, EmptyString => false
  | String c prefix', String d s' =>
      if Ascii.eqb c d then HasPrefix s' prefix' else false
  end.

(** [s[n:]] for [n <= len(s)] *)
Fixpoint drop_bytes (n : nat) (s : string) : string :=
  match n, s with
  | O, _ => s
  | S n', String _ s' => drop_bytes n' s'
  | S _, EmptyString => EmptyString
  end.

(** [s[:n]] for [n <= len(s)] *)
Fixpoint take_bytes (n : nat) (s : string) : string :=
  match n, s with
  | O, _ => EmptyString
  | S n', String c s' => String c (take_bytes n' s')
  | S _, EmptyString => EmptyString
  end.

(** [strings.TrimPrefix s prefix] *)
Definition TrimPrefix (s prefix : string) : string :=
  if HasPrefix s prefix then drop_bytes (String.length prefix) s else s.

(** [strings.HasSuffix s suffix] *)
Definition HasSuffix (s suffix : string) : bool :=
  (String.length suffix <=? String.length s)%nat &&
  String.eqb (drop_bytes (String.length s - String.length suffix) s) suffix.

(** [strings.TrimSuffix s suffix] *)
Definition TrimSuffix (s suffix : string) : string :=
  if HasSuffix s suffix
  then take_bytes (String.length s - String.length suffix) s
  else s.

(** [strings.Count s sep] for a one-byte separator *)
Fixpoint Count (s : string) (sep : ascii) : Z :=
  match s with
  | EmptyString => 0
  | String c s' => (if Ascii.eqb c sep then 1 else 0) + Count s' sep
  end.

(** [strings.Split s sep] for a one-byte separator; the result is never
    empty *)
Fixpoint Split (s : string) (sep : ascii) : list string :=
  match s with
  | EmptyString => [EmptyString]
  | String c s' =>
      if Ascii.eqb c sep then EmptyString :: Split s' sep
      else match Split s' sep with
           | [] => [String c EmptyString]
           | seg :: segs => String c seg :: segs
           end
  end.

(** [strings.Contains s substr] *)
Fixpoint Contains (s substr : string) : bool :=
  HasPrefix s substr ||
  match s with
  | EmptyString => false
  | String _ s' => Contains s' substr
  end.

(** [strings.LastIndex s substr], [None] standing for [-1] *)
Fixpoint LastIndex (s substr : string) : option nat :=
  match s with
  | EmptyString => if HasPrefix s substr then Some O else None
  | String _ s' =>
      match LastIndex s' substr with
      | Some i => Some (S i)
      | None => if HasPrefix s substr then Some O else None
      end
  end.

End Strings.

(** ** [pkg/utils]: path helpers *)

Module utils.

(** Modelled from the spec: the balance-group suffix marker of
    [pkg/utils], whose source is not part of this development.  The spec
    names the markers [.balance], [.balance2], ... *)
Definition balance : string := ".balance".

(** Modelled from the spec: [utils.StandardizePath] is missing from the
    sources; the spec describes a normalized virtual path as rooted at
    [/] with the trailing slash stripped, the root itself excepted. *)
Definition StandardizePath (path : string) : string :=
  let path := Strings.TrimSuffix path "/" in
  if Strings.HasPrefix path "/" then path else String "/" path.

(** Modelled from the spec: [utils.IsBalance] is missing from the
    sources; a balance-group member is a storage whose mount path
    carries the suffix marker. *)
Definition IsBalance (str : string) : bool := Strings.Contains str balance.

(** Modelled from the spec: [utils.GetActualVirtualPath] is missing from
    the sources; the actual virtual path is the mount path with the
    balance suffix (the marker and what follows it) stripped. *)
Definition GetActualVirtualPath (virtualPath : string) : string :=
  match Strings.LastIndex virtualPath balance with
  | Some bIndex => Strings.take_bytes bIndex virtualPath
  | None => virtualPath
  end.

End utils.

(** ** [internal/model] *)

Module model.

(** [time.Time], kept abstract as an instant on a discrete clock *)
Definition Time := Z.

(** Modelled from the spec: the declaration of [model.Storage] is
    missing from the sources; these are the fields the spec lists and
    the routing code reads. [ID] is Go's [uint], [Index] Go's [int]. *)
Record Storage : Type := mkStorage {
  ID : N;
  MountPath : string;
  Index : Z;
  Driver : string;
  Addition : string;
  Modified : Time
}.

(** Go's zero value of [model.Storage] *)
Definition zeroStorage : Storage := mkStorage 0%N "" 0 "" "" 0.

Definition setID (id : N) (s : Storage) : Storage :=
  mkStorage id (MountPath s) (Index s) (Driver s) (Addition s) (Modified s).
Definition setMountPath (p : string) (s : Storage) : Storage :=
  mkStorage (ID s) p (Index s) (Driver s) (Addition s) (Modified s).
Definition setModified (t : Time) (s : Storage) : Storage :=
  mkStorage (ID s) (MountPath s) (Index s) (Driver s) (Addition s) t.

(** [model.Object], the synthetic directory entry *)
Module Object.
Record t : Type := mk {
  Name : string;
  Size : Z;
  Modified : Time;
  IsFolder : bool
}.
End Object.

End model.
Import model.

(** ** [github.com/pkg/errors] *)

Module errors.

Inductive error : Type :=
| Errorf (msg : string)
| WithMessage (cause : error) (msg : string)
| WithStack (cause : error)
| Foreign (what : string).   (* raised by gorm or by a backend driver *)

(** [errors.WithStack err] is [nil] on [nil] *)
Definition WithStack' (err : option error) : option error :=
  match err with
  | Some e => Some (WithStack e)
  | None => None
  end.

End errors.
Import errors.

(** ** Go's [sort.Slice] *)

(** [sort.Slice] is not stable and its algorithm depends on the length of
    the slice and on the Go release; the routing code is therefore
    embedded over any implementation of it. *)
Class SliceSorter : Type :=
  sort_Slice : forall A : Type, (A -> A -> bool) -> list A -> list A.
Arguments sort_Slice {_ _} _ _.

(** What [sort.Slice] requires of [less] (a strict weak ordering) ... *)
Record LessOk {A : Type} (less : A -> A -> bool) : Prop := {
  less_irrefl : forall x, less x x = false;
  less_trans : forall x y z, less x y = true -> less y z = true -> less x z = true;
  less_negtrans : forall x y z, less x y = false -> less y z = false -> less x z = false
}.

(** ... and what it promises in return: the same elements, no element
    before one that is less than it. *)
Definition SortContract (sorter : SliceSorter) : Prop :=
  forall (A : Type) (less : A -> A -> bool) (l : list A),
    @sort_Slice sorter A less l ≡ₚ l /\
    (LessOk less ->
     StronglySorted (fun a b => less b a = false) (@sort_Slice sorter A less l)).

(** Go's [insertionSort]: the algorithm [sort.Slice] runs on slices of
    fewer than 12 elements.  Element [x] moves left while it is less than
    its predecessor. *)
Fixpoint sink {A : Type} (less : A -> A -> bool) (x : A) (rev_sorted : list A) : list A :=
  match rev_sorted with
  | [] => [x]
  | y :: rest => if less x y then y :: sink less x rest else x :: y :: rest
  end.

Definition insertionSort {A : Type} (less : A -> A -> bool) (l : list A) : list A :=
  reverse (fold_left (fun acc x => sink less x acc) l []).

Definition insertion : SliceSorter := @insertionSort.

(** ** [internal/driver]: the backend driver interface *)

(** Modelled from the spec: the declaration of [driver.Driver] is missing
    from the sources.  The routing core depends on [Init], [Drop] and
    [GetStorage] only; [Init] and [Drop] mutate the receiver, so they
    return the new state of the driver object next to the error.  The
    [context.Context] argument only carries cancellation and is left
    out.  [GetDriverNew name] stands for looking up the constructor of
    the named driver type and calling it. *)
Class DriverOps (Drv : Type) : Type := {
  GetDriverNew : string -> error + Drv;
  Init : Drv -> Storage -> Drv * option error;
  Drop : Drv -> Drv * option error;
  GetStorage : Drv -> Storage
}.

(** The binding the spec asks of a driver: after a successful [Init] the
    driver exposes the configuration it was initialised with. *)
Definition InitBinds {Drv : Type} `{!DriverOps Drv} : Prop :=
  forall (d d' : Drv) (s : Storage), Init d s = (d', None) -> GetStorage d' = s.

(** A driver that does not lose its mount path: [Drop] leaves the mount
    path the driver exposes as it is, and after [Init], failed or not,
    the driver exposes the mount path it had or the one it was given. *)
Definition KeepsMountPath {Drv : Type} `{!DriverOps Drv} : Prop :=
  (forall d : Drv, MountPath (GetStorage (Drop d).1) = MountPath (GetStorage d)) /\
  (forall (d : Drv) (s : Storage),
     MountPath (GetStorage (Init d s).1) = MountPath (GetStorage d) \/
     MountPath (GetStorage (Init d s).1) = MountPath s).

(** ** gorm, the relational engine under [internal/db] *)

(** The four gorm calls of [internal/db], over an abstract database
    state.  [Create] and [Save] receive a pointer to the row and write
    the primary key back through it: they return the [ID] the row has
    after the call.  [First] is a query and leaves the database alone. *)
Class Gorm (DB : Type) : Type := {
  gorm_Create : DB -> Storage -> DB * N * option error;
  gorm_Save : DB -> Storage -> DB * N * option error;
  gorm_Delete : DB -> N -> DB * option error;
  gorm_First : DB -> Storage -> error + Storage
}.

(** ** [internal/db]: the storage repository *)

Module db.
Section Repository.
Context {DB : Type} `{!Gorm DB}.

(** CreateStorage just insert storage to database *)
Definition CreateStorage (d : DB) (storage : Storage) : DB * Storage * option error :=
  let '(d', id, err) := gorm_Create d storage in
  (d', setID id storage, WithStack' err).

(** UpdateStorage just update storage in database *)
Definition UpdateStorage (d : DB) (storage : Storage) : DB * Storage * option error :=
  let '(d', id, err) := gorm_Save d storage in
  (d', setID id storage, WithStack' err).

(** DeleteStorageById just delete storage from database by id *)
Definition DeleteStorageById (d : DB) (id : N) : DB * option error :=
  let '(d', err) := gorm_Delete d id in
  (d', WithStack' err).

(** GetStorageById Get Storage by id, used to update storage usually *)
Definition GetStorageById (d : DB) (id : N) : error + Storage :=
  let storage := setID id zeroStorage in
  match gorm_First d storage with
  | inl err => inl (WithStack err)
  | inr storage' => inr storage'
  end.

End Repository.
End db.

(** ** [internal/operations] *)

(** A driver value: the address of a driver object. *)
Definition loc := nat.

(** How a Go call ends: it returns, or it panics (index out of range, or
    a method call through a driver value with no object behind it). *)
Inductive outcome (A : Type) : Type :=
| Returned (a : A)
| Panicked.
Arguments Returned {A} a.
Arguments Panicked {A}.

(** The process-wide state: the two package variables [storagesMap] and
    [balanceMap], the driver objects they point to, and the database. *)
Record State (Drv DB : Type) : Type := mkState {
  storagesMap : gmap string loc;
  balanceMap : gmap string Z;
  heap : gmap loc Drv;
  database : DB
}.
Arguments mkState {Drv DB} _ _ _ _.
Arguments storagesMap {Drv DB} _.
Arguments balanceMap {Drv DB} _.
Arguments heap {Drv DB} _.
Arguments database {Drv DB} _.

(** A sequence in which [storagesMap.Range] may visit the registry. *)
Definition RangeOf (m : gmap string loc) (es : list (string * loc)) : Prop :=
  es ≡ₚ map_to_list m.

(** A slice [storagesMap.Values()] may return. *)
Definition ValuesOf (m : gmap string loc) (vs : list loc) : Prop :=
  vs ≡ₚ (map_to_list m).*2.

(** Go's [int]: 64-bit two's complement. *)
Definition int_wrap (z : Z) : Z := (z + 2 ^ 63) mod 2 ^ 64 - 2 ^ 63.
Definition max_int : Z := 2 ^ 63 - 1.

(** [storages[i]] on a slice, with Go's bounds check *)
Definition index {A : Type} (storages : list A) (i : Z) : outcome A :=
  if (0 <=? i) && (i <? Z.of_nat (length storages))
  then match storages !! Z.to_nat i with
       | Some x => Returned x
       | None => Panicked
       end
  else Panicked.

Section Operations.
Context {Drv DB : Type} `{!DriverOps Drv} `{!Gorm DB} {sorter : SliceSorter}.

Abbreviation State := (State Drv DB).

Definition setStoragesMap (m : gmap string loc) (st : State) : State :=
  mkState m (balanceMap st) (heap st) (database st).
Definition setBalanceMap (b : gmap string Z) (st : State) : State :=
  mkState (storagesMap st) b (heap st) (database st).
Definition setHeap (h : gmap loc Drv) (st : State) : State :=
  mkState (storagesMap st) (balanceMap st) h (database st).
Definition setDatabase (d : DB) (st : State) : State :=
  mkState (storagesMap st) (balanceMap st) (heap st) d.

(** [value.GetStorage()] through a driver value.  Every driver the
    lifecycle registers has its object in the heap ([registry_wf]); for
    an address with no object behind it the zero storage is read. *)
Definition storageOf (h : gmap loc Drv) (value : loc) : Storage :=
  match h !! value with
  | Some d => GetStorage d
  | None => zeroStorage
  end.

Definition GetStorageByVirtualPath (st : State) (virtualPath : string) : error + loc :=
  match storagesMap st !! virtualPath with
  | None => inl (Errorf ("no virtual path for an storage is: " +:+ virtualPath))
  | Some storageDriver => inr storageDriver
  end.

(** [storageDriver.Init(ctx, storage)] and [storageDriver.Drop(ctx)] on
    the object at [l] *)
Definition callInit (st : State) (l : loc) (storage : Storage) : outcome (option error) * State :=
  match heap st !! l with
  | Some d => let '(d', err) := Init d storage in
              (Returned err, setHeap (<[l := d']> (heap st)) st)
  | None => (Panicked, st)
  end.

Definition callDrop (st : State) (l : loc) : outcome (option error) * State :=
  match heap st !! l with
  | Some d => let '(d', err) := Drop d in
              (Returned err, setHeap (<[l := d']> (heap st)) st)
  | None => (Panicked, st)
  end.

(** CreateStorage Save the storage to database so storage can get an id
    then instantiate corresponding driver and save it in memory.
    [now] is the reading of [time.Now()]. *)
Definition CreateStorage (now : Time) (st : State) (storage : Storage)
  : outcome (option error) * State :=
  let storage := setModified now storage in
  let storage := setMountPath (utils.StandardizePath (MountPath storage)) storage in
  (* check driver first *)
  let driverName := Driver storage in
  match GetDriverNew driverName with
  | inl err => (Returned (Some (WithMessage err "failed get driver new")), st)
  | inr fresh_driver =>
      let storageDriver := fresh (dom (heap st)) in
      let st := setHeap (<[storageDriver := fresh_driver]> (heap st)) st in
      (* insert storage to database *)
      let '(d', storage, err) := db.CreateStorage (database st) storage in
      let st := setDatabase d' st in
      match err with
      | Some err =>
          (Returned (Some (WithMessage err "failed create storage in database")), st)
      | None =>
          (* already has an id *)
          match callInit st storageDriver storage with
          | (Panicked, st) => (Panicked, st)
          | (Returned (Some err), st) =>
              (Returned (Some (WithMessage err
                 "failed init storage but storage is already created")), st)
          | (Returned None, st) =>
              (Returned None,
               setStoragesMap (<[MountPath storage := storageDriver]> (storagesMap st)) st)
          end
      end
  end.

(** UpdateStorage update storage: get old storage first, drop the
    storage then reinitialize *)
Definition UpdateStorage (now : Time) (st : State) (storage : Storage)
  : outcome (option error) * State :=
  match db.GetStorageById (database st) (ID storage) with
  | inl err => (Returned (Some (WithMessage err "failed get old storage")), st)
  | inr oldStorage =>
      if negb (String.eqb (Driver oldStorage) (Driver storage))
      then (Returned (Some (Errorf "driver cannot be changed")), st)
      else
        let storage := setModified now storage in
        let storage := setMountPath (utils.StandardizePath (MountPath storage)) storage in
        let '(d', storage, err) := db.UpdateStorage (database st) storage in
        let st := setDatabase d' st in
        match err with
        | Some err =>
            (Returned (Some (WithMessage err "failed update storage in database")), st)
        | None =>
            let found := GetStorageByVirtualPath st (MountPath oldStorage) in
            let st :=
              if negb (String.eqb (MountPath oldStorage) (MountPath storage))
              then (* virtual path renamed, need to drop the storage *)
                setStoragesMap (delete (MountPath oldStorage) (storagesMap st)) st
              else st in
            match found with
            | inl err => (Returned (Some (WithMessage err "failed get storage driver")), st)
            | inr storageDriver =>
                match callDrop st storageDriver with
                | (Panicked, st) => (Panicked, st)
                | (Returned (Some err), st) =>
                    (Returned (Some (WithMessage err "failed drop storage")), st)
                | (Returned None, st) =>
                    match callInit st storageDriver storage with
                    | (Panicked, st) => (Panicked, st)
                    | (Returned (Some err), st) =>
                        (Returned (Some (WithMessage err "failed init storage")), st)
                    | (Returned None, st) =>
                        (Returned None,
                         setStoragesMap
                           (<[MountPath storage := storageDriver]> (storagesMap st)) st)
                    end
                end
            end
        end
  end.

Definition DeleteStorageById (st : State) (id : N) : outcome (option error) * State :=
  match db.GetStorageById (database st) id with
  | inl err => (Returned (Some (WithMessage err "failed get storage")), st)
  | inr storage =>
      match GetStorageByVirtualPath st (MountPath storage) with
      | inl err => (Returned (Some (WithMessage err "failed get storage driver")), st)
      | inr storageDriver =>
          (* drop the storage in the driver *)
          match callDrop st storageDriver with
          | (Panicked, st) => (Panicked, st)
          | (Returned (Some err), st) =>
              (Returned (Some (WithMessage err "failed drop storage")), st)
          | (Returned None, st) =>
              (* delete the storage in the database *)
              let '(d', err) := db.DeleteStorageById (database st) id in
              let st := setDatabase d' st in
              match err with
              | Some err =>
                  (Returned (Some (WithMessage err
                     "failed delete storage in database")), st)
              | None =>
                  (* delete the storage in the memory *)
                  (Returned None,
                   setStoragesMap (delete (MountPath storage) (storagesMap st)) st)
              end
          end
      end
  end.

(** The closure [getStoragesByPath] hands to [storagesMap.Range]: one
    visit of the entry [key], [value], on the captured variables
    [storages] and [curSlashCount]. *)
Definition visit (h : gmap loc Drv) (path : string)
    (captured : list loc * Z) (entry : string * loc) : list loc * Z :=
  let '(storages, curSlashCount) := captured in
  let value := entry.2 in
  let virtualPath := utils.GetActualVirtualPath (MountPath (storageOf h value)) in
  let virtualPath := if String.eqb virtualPath "/" then "" else virtualPath in
  (* not this *)
  if negb (String.eqb path virtualPath)
     && negb (Strings.HasPrefix path (virtualPath +:+ "/"))
  then captured
  else
    let slashCount := Strings.Count virtualPath "/" in
    (* not the longest match *)
    if slashCount <? curSlashCount then captured
    else
      let '(storages, curSlashCount) :=
        if slashCount >? curSlashCount then ([], slashCount)
        else (storages, curSlashCount) in
      ((storages ++ [value])%list, curSlashCount).

(** The [less] of the final sort of [getStoragesByPath] *)
Definition lessMountPath (h : gmap loc Drv) (a b : loc) : bool :=
  String.ltb (MountPath (storageOf h a)) (MountPath (storageOf h b)).

(** getStoragesByPath get storage by longest match path, contains
    balance storage.  [es] is the sequence [Range] visits. *)
Definition getStoragesByPath (h : gmap loc Drv) (es : list (string * loc))
    (path : string) : list loc :=
  let '(storages, _) := fold_left (visit h path) es ([], 0) in
  (* make sure the order is the same for same input *)
  sort_Slice (lessMountPath h) storages.

(** The [less] of the sort of [GetStorageVirtualFilesByPath] *)
Definition lessIndexMountPath (h : gmap loc Drv) (a b : loc) : bool :=
  if Index (storageOf h a) =? Index (storageOf h b)
  then String.ltb (MountPath (storageOf h a)) (MountPath (storageOf h b))
  else Index (storageOf h a) <? Index (storageOf h b).

(** One turn of the loop of [GetStorageVirtualFilesByPath], on the
    variables [files] and [set]; [prefix] ends in a slash. *)
Definition emit (h : gmap loc Drv) (prefix : string)
    (vars : list Object.t * gset string) (v : loc) : list Object.t * gset string :=
  let '(files, set) := vars in
  (* balance storage *)
  if utils.IsBalance (MountPath (storageOf h v)) then vars
  else
    let virtualPath := MountPath (storageOf h v) in
    if (String.length virtualPath <=? String.length prefix)%nat then vars
    else
      (* not prefixed with `prefix` *)
      if negb (Strings.HasPrefix virtualPath prefix) then vars
      else
        let name := hd "" (Strings.Split (Strings.TrimPrefix virtualPath prefix) "/") in
        if decide (name ∈ set) then vars
        else ((files ++ [Object.mk name 0 (Modified (storageOf h v)) true])%list,
              {[name]} ∪ set).

(** GetStorageVirtualFilesByPath Obtain the virtual file generated by
    the storage according to the path.  [vs] is the slice
    [storagesMap.Values()] returns. *)
Definition GetStorageVirtualFilesByPath (h : gmap loc Drv) (vs : list loc)
    (prefix : string) : list Object.t :=
  let storages := sort_Slice (lessIndexMountPath h) vs in
  let prefix := utils.StandardizePath prefix in
  let prefix := if negb (String.eqb prefix "/") then prefix +:+ "/" else prefix in
  (fold_left (emit h prefix) storages ([], ∅)).1.

(** GetBalancedStorage get storage by path.  [es] is the sequence the
    [Range] inside [getStoragesByPath] visits. *)
Definition GetBalancedStorage (es : list (string * loc)) (st : State) (path : string)
  : outcome (option loc) * State :=
  let path := utils.StandardizePath path in
  let storages := getStoragesByPath (heap st) es path in
  let storageNum := Z.of_nat (length storages) in
  if storageNum =? 0 then (Returned None, st)
  else if storageNum =? 1 then
    match index storages 0 with
    | Returned only => (Returned (Some only), st)
    | Panicked => (Panicked, st)
    end
  else
    match index storages 0 with
    | Panicked => (Panicked, st)
    | Returned first =>
        let virtualPath :=
          utils.GetActualVirtualPath (MountPath (storageOf (heap st) first)) in
        let '(i, st) :=
          match balanceMap st !! virtualPath with
          | Some cur =>
              let i := cur in
              let i := Z.rem (int_wrap (i + 1)) storageNum in
              (i, setBalanceMap (<[virtualPath := i]> (balanceMap st)) st)
          | None =>
              (0, setBalanceMap (<[virtualPath := 0]> (balanceMap st)) st)
          end in
        match index storages i with
        | Returned chosen => (Returned (Some chosen), st)
        | Panicked => (Panicked, st)
        end
    end.

(** Consecutive calls [GetBalancedStorage(path)], one per element of
    [ess] (the sequence [Range] visits during that call), with nothing
    else touching the registry or the cursors in between. *)
Fixpoint balanced_calls (ess : list (list (string * loc))) (st : State) (path : string)
  : list (outcome (option loc)) * State :=
  match ess with
  | [] => ([], st)
  | es :: ess' =>
      let '(r, st) := GetBalancedStorage es st path in
      let '(rs, st) := balanced_calls ess' st path in
      (r :: rs, st)
  end.

End Operations.

(** ** A backend and a repository to run the operations on

    [Mem.Drv] is a driver that keeps the configuration it was initialised
    with; its [Init] fails on the addition [unreachable], its [Drop] on
    the addition [busy].  [Mem.DB] is a table of rows by id with an
    auto-increment counter and a unique [mount_path] column, which
    refuses writes when read-only. *)

Module Mem.

Record Drv : Type := mkDrv { bound : Storage; live : bool }.

#[global] Instance driver : DriverOps Drv := {|
  GetDriverNew name :=
    if String.eqb name "Local" then inr (mkDrv zeroStorage false)
    else inl (Errorf ("no driver named: " +:+ name));
  Init d s :=
    if String.eqb (Addition s) "unreachable"
    then (d, Some (Foreign "dial: host unreachable"))
    else (mkDrv s true, None);
  Drop d :=
    if String.eqb (Addition (bound d)) "busy"
    then (d, Some (Foreign "resource busy"))
    else (mkDrv (bound d) false, None);
  GetStorage d := bound d
|}.

Record DB : Type := mkDB { rows : gmap N Storage; last_id : N; readonly : bool }.

(** Some row other than the row [id] holds the mount path of [s]. *)
Definition mount_path_taken (d : DB) (id : N) (s : Storage) : bool :=
  existsb (fun row : N * Storage =>
             negb (row.1 =? id)%N && String.eqb (MountPath row.2) (MountPath s))
          (map_to_list (rows d)).

Definition insert_row (d : DB) (s : Storage) : DB * N * option error :=
  let id := if (ID s =? 0)%N then N.succ (last_id d) else ID s in
  match rows d !! id with
  | Some _ => (d, ID s, Some (Foreign "UNIQUE constraint failed: storages.id"))
  | None =>
      if mount_path_taken d id s
      then (d, ID s, Some (Foreign "UNIQUE constraint failed: storages.mount_path"))
      else (mkDB (<[id := setID id s]> (rows d)) (N.max id (last_id d)) (readonly d),
            id, None)
  end.

#[global] Instance gorm : Gorm DB := {|
  gorm_Create d s :=
    if readonly d then (d, ID s, Some (Foreign "attempt to write a readonly database"))
    else insert_row d s;
  gorm_Save d s :=
    if readonly d then (d, ID s, Some (Foreign "attempt to write a readonly database"))
    else if (ID s =? 0)%N then insert_row d s
    else if mount_path_taken d (ID s) s
    then (d, ID s, Some (Foreign "UNIQUE constraint failed: storages.mount_path"))
    else (mkDB (<[ID s := s]> (rows d)) (N.max (ID s) (last_id d)) (readonly d),
          ID s, None);
  gorm_Delete d id :=
    if readonly d then (d, Some (Foreign "attempt to write a readonly database"))
    else (mkDB (delete id (rows d)) (last_id d) (readonly d), None);
  gorm_First d s :=
    match rows d !! ID s with
    | Some row => inr row
    | None => inl (Foreign "record not found")
    end
|}.

Definition emptyDB : DB := mkDB ∅ 0%N false.

(** The state of a process that has mounted nothing yet. *)
Definition boot : State Drv DB := mkState ∅ ∅ ∅ emptyDB.

(** A configuration for the [Local] driver. *)
Definition local (mountPath : string) (idx : Z) : Storage :=
  mkStorage 0%N mountPath idx "Local" "" 0.

(** Mount the given configurations one after the other, at instants
    [now], [now + 1], ...; a failed mount is skipped. *)
Fixpoint mount_all (now : Time) (st : State Drv DB) (configs : list Storage)
  : State Drv DB :=
  match configs with
  | [] => st
  | c :: configs' => mount_all (now + 1) (CreateStorage now st c).2 configs'
  end.

(** The mounts of the example in the source of
    [GetStorageVirtualFilesByPath]. *)
Definition five : State Drv DB :=
  mount_all 1 boot
    [local "/a/b" 0; local "/a/c" 0; local "/a/d/e" 0;
     local "/a/b.balance1" 0; local "/av" 0].

(** The registry in the order [map_to_list] enumerates it. *)
Definition entries (st : State Drv DB) : list (string * loc) :=
  map_to_list (storagesMap st).

(** [five] with a cursor left behind by a larger group. *)
Definition stale : State Drv DB :=
  mkState (storagesMap five) {[ "/a/b" := 7 ]} (heap five) (database five).

(** A single mount whose driver refuses to be dropped. *)
Definition stuck : State Drv DB :=
  mount_all 1 boot [mkStorage 0%N "/x" 0 "Local" "busy" 0].

(** [five] on a database that has become read-only. *)
Definition frozen : State Drv DB :=
  mkState (storagesMap five) (balanceMap five) (heap five)
    (mkDB (rows (database five)) (last_id (database five)) true).

End Mem.

(** ** A backend that forgets its configuration when [Init] fails

    [Zeroing.Drv] starts [Init] from the zero value, as a Go driver
    whose [Init] begins with [*d = Driver{}]: after a successful [Init]
    it exposes the configuration it was given, after a failed one the
    zero [Storage].  Its [Init] fails on the addition [unreachable];
    its [Drop] always succeeds. *)

Module Zeroing.

Record Drv : Type := mkDrv { bound : Storage }.

#[global] Instance driver : DriverOps Drv := {|
  GetDriverNew name :=
    if String.eqb name "Zeroing" then inr (mkDrv zeroStorage)
    else inl (Errorf ("no driver named: " +:+ name));
  Init d s :=
    if String.eqb (Addition s) "unreachable"
    then (mkDrv zeroStorage, Some (Foreign "dial: host unreachable"))
    else (mkDrv s, None);
  Drop d := (d, None);
  GetStorage d := bound d
|}.

(** The state of a process that has mounted nothing yet. *)
Definition boot : State Drv Mem.DB := mkState ∅ ∅ ∅ Mem.emptyDB.



End Zeroing.

(** ** The rest of [internal/operations]: saving a driver's storage *)

(** [errors.Wrap err message]: the message is attached, then the stack. *)
Definition Wrap (err : error) (message : string) : error :=
  WithStack (WithMessage err message).

(** [err.Error()], as [github.com/pkg/errors] renders its wrappers. *)
Fixpoint Error (err : error) : string :=
  match err with
  | Errorf msg => msg
  | WithMessage cause msg => msg +:+ ": " +:+ Error cause
  | WithStack cause => Error cause
  | Foreign what => what
  end.

(** [storage.Addition = ...] on a [model.Storage] value *)
Definition setAddition (addition : string) (s : Storage) : Storage :=
  mkStorage (ID s) (MountPath s) (Index s) (Driver s) addition (Modified s).

(** Modelled from the spec: the declaration of [driver.Driver] is missing
    from the sources.  [GetAddition] hands out the backend-specific
    configuration object of a driver; [Json_Marshal] is
    [utils.Json.Marshal] on such an object, the bytes read as a
    string. *)
Class AdditionOps (Drv Addition : Type) : Type := {
  GetAddition : Drv -> Addition;
  Json_Marshal : Addition -> error + string
}.

Section SaveDriverStorage.
Context {Drv DB Addition : Type} `{!DriverOps Drv} `{!Gorm DB} `{!AdditionOps Drv Addition}.

(** [saveDriverStorage(driver)].  [GetStorage] returns the storage by
    value: the assignment to [storage.Addition] changes the copy. *)
Definition saveDriverStorage (st : State Drv DB) (driver : loc)
  : outcome (option error) * State Drv DB :=
  match heap st !! driver with
  | None => (Panicked, st)
  | Some d =>
      let storage := GetStorage d in
      let addition := GetAddition d in
      match Json_Marshal addition with
      | inl err => (Returned (Some (Wrap err "error while marshal addition")), st)
      | inr bytes =>
          let storage := setAddition bytes storage in
          let '(d', storage, err) := db.UpdateStorage (database st) storage in
          let st := setDatabase d' st in
          match err with
          | Some err =>
              (Returned (Some (WithMessage err "failed update storage in database")), st)
          | None => (Returned None, st)
          end
      end
  end.

(** MustSaveDriverStorage call from specific driver.  The third
    component is what the call writes to the error log. *)
Definition MustSaveDriverStorage (st : State Drv DB) (driver : loc)
  : outcome unit * State Drv DB * list string :=
  match saveDriverStorage st driver with
  | (Panicked, st) => (Panicked, st, [])
  | (Returned (Some err), st) =>
      (Returned tt, st, ["failed save driver storage: " +:+ Error err])
  | (Returned None, st) => (Returned tt, st, [])
  end.

End SaveDriverStorage.

(** The addition of a [Mem.Drv] is the addition string of its storage;
    it is marshalled between braces, and the addition [NaN] cannot be
    marshalled. *)
#[global] Instance Mem_addition : AdditionOps Mem.Drv string := {|
  GetAddition d := Addition (Mem.bound d);
  Json_Marshal a :=
    if String.eqb a "NaN" then inl (Foreign "json: unsupported value: NaN")
    else inr ("{" +:+ a +:+ "}")
|}.

(** ** [internal/bootstrap]: opening the database *)

Module bootstrap.

(** The fields of [conf.Conf.Database] that [InitDB] reads; [Type_] is
    the field [Type]. *)
Record Database : Type := mkDatabase {
  Type_ : string;
  Host : string;
  Port : Z;
  User : string;
  Password : string;
  Name : string;
  DBFile : string;
  TablePrefix : string;
  SSLMode : string
}.

(** The dialector handed to [gorm.Open], with its data source name. *)
Inductive Dialector : Type :=
| sqlite_Open (dsn : string)
| mysql_Open (dsn : string)
| postgres_Open (dsn : string).

(** How [InitDB] ends: [log.Fatalf] has logged a message and left the
    process, or [db.Init] has been called with the handle opened. *)
Inductive started (Handle : Type) : Type :=
| Fatal (message : string)
| Ready (dB : Handle).
Arguments Fatal {Handle} message.
Arguments Ready {Handle} dB.

Section InitDB.
Context {Handle : Type}.
(** [gorm.Open dialector gormConfig]; of the configuration only the
    table prefix of the naming strategy matters to the caller. *)
Variable gorm_Open : Dialector -> string -> error + Handle.

Definition mysql_dsn (database : Database) : string :=
  User database +:+ ":" +:+ Password database +:+ "@tcp(" +:+ Host database +:+ ":"
  +:+ pretty (Port database) +:+ ")/" +:+ Name database
  +:+ "?charset=utf8mb4&parseTime=True&loc=Local&tls=" +:+ SSLMode database.

Definition postgres_dsn (database : Database) : string :=
  "host=" +:+ Host database +:+ " user=" +:+ User database
  +:+ " password=" +:+ Password database +:+ " dbname=" +:+ Name database
  +:+ " port=" +:+ pretty (Port database) +:+ " sslmode=" +:+ SSLMode database
  +:+ " TimeZone=Asia/Shanghai".

(** [InitDB()], on the flag [args.Dev] and the configuration
    [conf.Conf.Database]. *)
Definition InitDB (Dev : bool) (database : Database) : started Handle :=
  let gormConfig := TablePrefix database in
  let connect (dialector : Dialector) : started Handle :=
    match gorm_Open dialector gormConfig with
    | inl err => Fatal ("failed to connect database:" +:+ Error err)
    | inr dB => Ready dB
    end in
  if Dev then connect (sqlite_Open "file::memory:?cache=shared")
  else if String.eqb (Type_ database) "sqlite3" then
    if negb (Strings.HasSuffix (DBFile database) ".db"
             && (3 <? String.length (DBFile database))%nat)
    then Fatal "db name error."
    else connect (sqlite_Open (DBFile database))
  else if String.eqb (Type_ database) "mysql" then
    connect (mysql_Open (mysql_dsn database))
  else if String.eqb (Type_ database) "postgres" then
    connect (postgres_Open (postgres_dsn database))
  else Fatal ("not supported database type: " +:+ Type_ database).

End InitDB.
End bootstrap.

(** A [gorm.Open] that can reach sqlite databases only; the handle it
    returns is the data source name. *)
Definition sqlite_only (dialector : bootstrap.Dialector) (tablePrefix : string)
  : error + string :=
  match dialector with
  | bootstrap.sqlite_Open dsn => inr dsn
  | _ => inl (Foreign "dial tcp: connection refused")
  end.

(** A second one, that can reach nothing at all. *)
Definition unreachable (dialector : bootstrap.Dialector) (tablePrefix : string)
  : error + string :=
  inl (Foreign "unable to open database file").

(** ** The notions the properties are stated with *)

(** [path] is [virtualPath] itself or lies under it. *)
Definition under (virtualPath path : string) : Prop :=
  exists rest, path = virtualPath +:+ rest /\ (rest = "" \/ exists rest', rest = "/" +:+ rest').

(** The error of an exact lookup that finds nothing. *)
Definition notFound (virtualPath : string) : error :=
  Errorf ("no virtual path for an storage is: " +:+ virtualPath).

(** The configuration [CreateStorage] and [UpdateStorage] hand to the
    repository: the request, stamped and with its mount path normalised. *)
Definition stamped (now : Time) (storage : Storage) : Storage :=
  setMountPath (utils.StandardizePath (MountPath storage)) (setModified now storage).

Section Notions.
Context {Drv : Type} `{!DriverOps Drv}.

(** The path a registered driver is matched on: its actual virtual
    path, the root counting as the empty prefix. *)
Definition matchPath (h : gmap loc Drv) (l : loc) : string :=
  let virtualPath := utils.GetActualVirtualPath (MountPath (storageOf h l)) in
  if String.eqb virtualPath "/" then "" else virtualPath.

(** [l] is a candidate for [path]: [path] is its match path, or starts
    with its match path followed by a slash. *)
Definition candidate (h : gmap loc Drv) (path : string) (l : loc) : bool :=
  String.eqb path (matchPath h l) || Strings.HasPrefix path (matchPath h l +:+ "/").

(** The depth of a mount: the number of slashes of its match path. *)
Definition depth (h : gmap loc Drv) (l : loc) : Z :=
  Strings.Count (matchPath h l) "/".

(** [l] is a deepest candidate among the drivers [vs]. *)
Definition deepest (h : gmap loc Drv) (vs : list loc) (path : string) (l : loc) : bool :=
  candidate h path l &&
  forallb (fun l' => implb (candidate h path l') (depth h l' <=? depth h l)) vs.

(** The normalised prefix [GetStorageVirtualFilesByPath] works with. *)
Definition dirPrefix (prefix : string) : string :=
  let prefix := utils.StandardizePath prefix in
  if negb (String.eqb prefix "/") then prefix +:+ "/" else prefix.

(** [l] contributes a child of [prefix] (which ends in a slash): it is
    no balance sibling and its mount path lies strictly under
    [prefix]. *)
Definition contributes (h : gmap loc Drv) (prefix : string) (l : loc) : bool :=
  negb (utils.IsBalance (MountPath (storageOf h l))) &&
  negb (String.length (MountPath (storageOf h l)) <=? String.length prefix)%nat &&
  Strings.HasPrefix (MountPath (storageOf h l)) prefix.

(** The name of the child of [prefix] that [l] contributes. *)
Definition childName (h : gmap loc Drv) (prefix : string) (l : loc) : string :=
  hd "" (Strings.Split (Strings.TrimPrefix (MountPath (storageOf h l)) prefix) "/").

(** The entry a contributing storage is listed as. *)
Definition entryOf (h : gmap loc Drv) (prefix : string) (v : loc) : Object.t :=
  Object.mk (childName h prefix v) 0 (Modified (storageOf h v)) true.

(** The registry maps distinct mount paths to distinct driver objects,
    and every registered driver has its object in the heap. *)
Definition registry_wf (m : gmap string loc) (h : gmap loc Drv) : Prop :=
  (forall k1 k2 l, m !! k1 = Some l -> m !! k2 = Some l -> k1 = k2) /\
  (forall k l, m !! k = Some l -> is_Some (h !! l)).

(** Every registered driver has its object, which exposes the mount
    path it is registered under. *)
Definition keyed (m : gmap string loc) (h : gmap loc Drv) : Prop :=
  forall k l, m !! k = Some l ->
              exists d, h !! l = Some d /\ MountPath (GetStorage d) = k.

(** The driver object [l] exists and is not registered. *)
Definition retired (l : loc) (m : gmap string loc) (h : gmap loc Drv) : Prop :=
  l ∈ dom h /\ forall k, m !! k <> Some l.

(** The mount paths the registered drivers expose are pairwise
    distinct (the uniqueness invariant of the data model). *)
Definition distinct_mounts (h : gmap loc Drv) (vs : list loc) : Prop :=
  NoDup ((fun l => MountPath (storageOf h l)) <$> vs).

(** Every balance cursor is a value [GetBalancedStorage] can have
    stored: an index, below the largest [int]. *)
Definition cursors_ok (b : gmap string Z) : Prop :=
  forall k cur, b !! k = Some cur -> 0 <= cur < max_int.

(** The cursor key of a resolved group. *)
Definition groupKey (h : gmap loc Drv) (storages : list loc) : string :=
  match storages with
  | first :: _ => utils.GetActualVirtualPath (MountPath (storageOf h first))
  | [] => ""
  end.

(** The index one balanced selection uses on a group of [n] drivers. *)
Definition nextIndex (cursor : option Z) (n : Z) : Z :=
  match cursor with
  | Some cur => Z.rem (int_wrap (cur + 1)) n
  | None => 0
  end.

End Notions.

(** ** Runs of the process *)

Section Steps.
Context {Drv DB : Type} `{!DriverOps Drv} `{!Gorm DB} {sorter : SliceSorter}.

(** One call of an operation that can change the state; the results of
    the calls are dropped, a failed or panicking call leaves whatever
    it had done before it stopped. *)
Inductive step : State Drv DB -> State Drv DB -> Prop :=
| step_create now st storage : step st (CreateStorage now st storage).2
| step_update now st storage : step st (UpdateStorage now st storage).2
| step_delete st id : step st (DeleteStorageById st id).2
| step_balance es st path : step st (GetBalancedStorage es st path).2.

(** The states a run can reach from [st]. *)
Definition reaches (st st' : State Drv DB) : Prop := rtc step st st'.

End Steps.

(** * Properties *)

(** ** Go's string order *)

Lemma ltb_irrefl (s : string) : String.ltb s s = false.
Proof.
  unfold String.ltb.
  assert (H : String.compare s s = Eq).
  { induction s as [|c s IH]; simpl; [done|].
    unfold Ascii.compare. rewrite N.compare_refl. exact IH. }
  by rewrite H.
Qed.

Lemma ltb_lt (a b : string) : String.ltb a b = true <-> String_as_OT.lt a b.
Proof.
  rewrite <- String_as_OT.cmp_lt. unfold String.ltb.
  change (String_as_OT.cmp a b) with (String.compare a b).
  destruct (String.compare a b); simpl; split; intros H; done.
Qed.

Lemma ltb_trans (a b c : string) :
  String.ltb a b = true -> String.ltb b c = true -> String.ltb a c = true.
Proof. rewrite !ltb_lt. apply String_as_OT.lt_trans. Qed.

Lemma ltb_total (a b : string) :
  String.ltb a b = false -> String.ltb b a = false -> a = b.
Proof.
  unfold String.ltb. rewrite (String.compare_antisym a b).
  destruct (String.compare b a) eqn:E; simpl; try discriminate.
  intros _ _. symmetry. by apply String.compare_eq_iff.
Qed.

Lemma ltb_negtrans (a b c : string) :
  String.ltb a b = false -> String.ltb b c = false -> String.ltb a c = false.
Proof.
  intros Hab Hbc. destruct (String.ltb a c) eqn:Hac; [|done].
  destruct (String.ltb b a) eqn:Hba.
  - by rewrite (ltb_trans _ _ _ Hba Hac) in Hbc.
  - assert (a = b) by by apply ltb_total. subst. congruence.
Qed.


(** ** The insertion sort honours the contract of [sort.Slice] *)

Section InsertionSort.
Context {A : Type} (less : A -> A -> bool).

Lemma sink_perm (x : A) (l : list A) : sink less x l ≡ₚ x :: l.
Proof.
  induction l as [|y l IH]; simpl; [done|].
  destruct (less x y); [|done].
  rewrite IH. apply Permutation_swap.
Qed.

(** The accumulator of the sort is kept in descending position order:
    its head is the last element of the sorted prefix. *)
Lemma sink_sorted (x : A) (l : list A) :
  LessOk less ->
  StronglySorted (fun a b => less a b = false) l ->
  StronglySorted (fun a b => less a b = false) (sink less x l).
Proof.
  intros Hok. induction 1 as [|y l Hs IH Hy]; simpl.
  - repeat constructor.
  - destruct (less x y) eqn:Hxy.
    + constructor; [exact IH|].
      rewrite (sink_perm x l). constructor; [|exact Hy].
      destruct (less y x) eqn:Hyx; [|done].
      pose proof (less_trans _ Hok _ _ _ Hxy Hyx) as F.
      by rewrite (less_irrefl _ Hok) in F.
    + constructor; [by constructor|].
      constructor; [exact Hxy|].
      eapply Forall_impl; [exact Hy|]. simpl. intros z Hyz.
      exact (less_negtrans _ Hok _ _ _ Hxy Hyz).
Qed.

Lemma insertion_fold_perm (l acc : list A) :
  fold_left (fun acc x => sink less x acc) l acc ≡ₚ l ++ acc.
Proof.
  revert acc. induction l as [|x l IH]; intros acc; simpl; [done|].
  rewrite IH, sink_perm. by rewrite Permutation_middle.
Qed.

Lemma insertion_fold_sorted (l acc : list A) :
  LessOk less ->
  StronglySorted (fun a b => less a b = false) acc ->
  StronglySorted (fun a b => less a b = false)
    (fold_left (fun acc x => sink less x acc) l acc).
Proof.
  intros Hok. revert acc. induction l as [|x l IH]; intros acc Hacc; simpl; [done|].
  apply IH. by apply sink_sorted.
Qed.

Lemma StronglySorted_rev_flip (R : A -> A -> Prop) (l : list A) :
  StronglySorted R l -> StronglySorted (fun a b => R b a) (reverse l).
Proof.
  induction 1 as [|x l Hs IH Hx]; [constructor|].
  rewrite reverse_cons. apply StronglySorted_app; split_and!.
  - intros a b Ha Hb%list_elem_of_singleton. subst b.
    rewrite Forall_forall in Hx. apply Hx. by rewrite <- elem_of_reverse.
  - exact IH.
  - repeat constructor.
Qed.

End InsertionSort.

Lemma insertion_contract : SortContract insertion.
Proof.
  intros A less l. unfold sort_Slice, insertion, insertionSort. split.
  - rewrite reverse_Permutation, insertion_fold_perm. by rewrite app_nil_r.
  - intros Hok.
    apply (StronglySorted_rev_flip (fun a b => less a b = false)).
    apply insertion_fold_sorted; [done|constructor].
Qed.

(** ** The mount resolver *)

Lemma filter_none {A : Type} (P : A -> Prop) `{!forall x, Decision (P x)} (l : list A) :
  (forall x, x ∈ l -> ~ P x) -> filter P l = [].
Proof.
  induction l as [|x l IH]; intros Hl; [done|].
  rewrite filter_cons_False by (apply Hl; left).
  apply IH. intros y Hy. apply Hl. by right.
Qed.

Section Resolver.
Context {Drv : Type} `{!DriverOps Drv} {sorter : SliceSorter}.
Variable h : gmap loc Drv.
Variable path : string.

Lemma Count_nonneg (s : string) (c : ascii) : 0 <= Strings.Count s c.
Proof. induction s as [|d s IH]; simpl; [lia|]. destruct (Ascii.eqb d c); lia. Qed.

Lemma depth_nonneg (l : loc) : 0 <= depth h l.
Proof. apply Count_nonneg. Qed.

(** One visit, read through [candidate] and [depth]. *)
Lemma visit_unfold (storages : list loc) (cur : Z) (e : string * loc) :
  visit h path (storages, cur) e =
  if candidate h path e.2
  then if depth h e.2 <? cur then (storages, cur)
       else if depth h e.2 >? cur then ([e.2], depth h e.2)
       else (storages ++ [e.2], cur)
  else (storages, cur).
Proof.
  unfold visit, candidate, depth, matchPath. cbv zeta.
  destruct (String.eqb path _); destruct (Strings.HasPrefix path _); simpl;
    try reflexivity;
    destruct (_ <? cur); try reflexivity; destruct (_ >? cur); reflexivity.
Qed.

(** The loop invariant of the [Range] callback: [curSlashCount] is the
    largest depth of a candidate seen so far (0 when there is none)
    and [storages] holds the candidates of that depth, in the order
    of the visits. *)
Lemma visit_fold (es : list (string * loc)) :
  let r := fold_left (visit h path) es ([], 0) in
  0 <= r.2 /\
  (forall l, l ∈ es.*2 -> candidate h path l = true -> depth h l <= r.2) /\
  (r.2 = 0 \/ exists l, l ∈ es.*2 /\ candidate h path l = true /\ depth h l = r.2) /\
  r.1 = filter (fun l => candidate h path l = true /\ depth h l = r.2) es.*2.
Proof.
  induction es as [|e es IH] using rev_ind; simpl.
  - split_and!; [lia|by intros l ?%elem_of_nil|by left|done].
  - rewrite fold_left_app. simpl.
    destruct (fold_left (visit h path) es ([], 0)) as [ss cur] eqn:E.
    simpl in IH. destruct IH as (Hc & Hle & Hatt & Hss).
    rewrite visit_unfold, fmap_app. simpl.
    destruct (candidate h path e.2) eqn:Hcand.
    + destruct (depth h e.2 <? cur) eqn:Hlt;
        [|destruct (depth h e.2 >? cur) eqn:Hgt]; simpl.
      * apply Z.ltb_lt in Hlt. split_and!; [done| | |].
        -- intros l [Hl|Hl%list_elem_of_singleton]%elem_of_app Hl';
             [by apply Hle|subst; lia].
        -- destruct Hatt as [->|(l & ? & ? & ?)];
             [by left|right; exists l; rewrite elem_of_app; auto].
        -- rewrite filter_app, <- Hss.
           rewrite filter_cons_False, filter_nil, app_nil_r; [done|].
           intros [_ ?]; lia.
      * apply Z.ltb_ge in Hlt. apply Z.gtb_lt in Hgt. split_and!.
        -- pose proof (depth_nonneg e.2). lia.
        -- intros l [Hl|Hl%list_elem_of_singleton]%elem_of_app Hl';
             [specialize (Hle l Hl Hl'); lia|subst; lia].
        -- right. exists e.2. rewrite elem_of_app, list_elem_of_singleton. auto.
        -- rewrite filter_app, filter_cons_True, filter_nil by done.
           replace (filter _ es.*2) with (@nil loc); [done|].
           symmetry. apply filter_none.
           intros l Hl [Hl' ?]. specialize (Hle l Hl Hl'). lia.
      * apply Z.ltb_ge in Hlt.
        assert (depth h e.2 = cur) as Heq.
        { destruct (Z.gtb_spec (depth h e.2) cur); [done|lia]. }
        split_and!; [done| | |].
        -- intros l [Hl|Hl%list_elem_of_singleton]%elem_of_app Hl';
             [by apply Hle|subst; lia].
        -- right. exists e.2. rewrite elem_of_app, list_elem_of_singleton. auto.
        -- rewrite filter_app, <- Hss. by rewrite filter_cons_True, filter_nil.
    + simpl. split_and!; [done| | |].
      * intros l [Hl|Hl%list_elem_of_singleton]%elem_of_app Hl';
          [by apply Hle|subst; congruence].
      * destruct Hatt as [->|(l & ? & ? & ?)];
          [by left|right; exists l; rewrite elem_of_app; auto].
      * rewrite filter_app, <- Hss.
        rewrite filter_cons_False, filter_nil, app_nil_r; [done|].
        intros [? _]; congruence.
Qed.

End Resolver.

Lemma filter_ext_elem {A : Type} (P Q : A -> Prop)
    `{!forall x, Decision (P x)} `{!forall x, Decision (Q x)} (l : list A) :
  (forall x, x ∈ l -> P x <-> Q x) -> filter P l = filter Q l.
Proof.
  induction l as [|x l IH]; intros Hl; [done|].
  assert (filter P l = filter Q l) as Htl.
  { apply IH. intros y Hy. apply Hl. by right. }
  destruct (decide (P x)) as [Hx|Hx].
  - rewrite !filter_cons_True; [by rewrite Htl| |done]. apply Hl; [left|done].
  - rewrite !filter_cons_False; [done| |done]. intros HQ. apply Hx, Hl; [left|done].
Qed.

Lemma NoDup_fmap_eq {A B : Type} (f : A -> B) (l : list A) (x y : A) :
  NoDup (f <$> l) -> x ∈ l -> y ∈ l -> f x = f y -> x = y.
Proof.
  induction l as [|z l IH]; simpl; intros Hnd Hx Hy Hf; [by apply elem_of_nil in Hx|].
  apply NoDup_cons in Hnd as [Hz Hnd].
  apply elem_of_cons in Hx as [->|Hx]; apply elem_of_cons in Hy as [->|Hy]; [done| | |by apply IH].
  - exfalso. apply Hz. rewrite Hf. by apply list_elem_of_fmap_2.
  - exfalso. apply Hz. rewrite <- Hf. by apply list_elem_of_fmap_2.
Qed.

Section ResolverSpec.
Context {Drv : Type} `{!DriverOps Drv}.
Variable h : gmap loc Drv.

Lemma deepest_spec (vs : list loc) (path : string) (l : loc) :
  deepest h vs path l = true <->
  candidate h path l = true /\
  forall l', l' ∈ vs -> candidate h path l' = true -> depth h l' <= depth h l.
Proof.
  unfold deepest. rewrite andb_true_iff, forallb_forall.
  apply and_iff_compat_l. split.
  - intros Hall l' Hl' Hc. apply list_elem_of_In, Hall in Hl'.
    rewrite Hc in Hl'. simpl in Hl'. by apply Z.leb_le.
  - intros Hall l' Hl'. destruct (candidate h path l') eqn:Hc; [simpl|done].
    apply Z.leb_le, Hall; [by apply list_elem_of_In|done].
Qed.

Lemma lessMountPath_ok : LessOk (lessMountPath h).
Proof.
  unfold lessMountPath. split.
  - intros x. apply ltb_irrefl.
  - intros x y z. apply ltb_trans.
  - intros x y z. apply ltb_negtrans.
Qed.

Lemma RangeOf_values (m : gmap string loc) (es : list (string * loc)) (l : loc) :
  RangeOf m es -> l ∈ es.*2 <-> exists k, m !! k = Some l.
Proof.
  intros Hes. rewrite Hes, list_elem_of_fmap. split.
  - intros ([k l'] & -> & Hkl%elem_of_map_to_list). by exists k.
  - intros [k Hk]. exists (k, l). by rewrite elem_of_map_to_list.
Qed.

(** The slice [getStoragesByPath] sorts: the deepest candidates, in the
    order [Range] visited them. *)
Lemma resolved_before_sort (es : list (string * loc)) (path : string) :
  (fold_left (visit h path) es ([], 0)).1 =
  filter (fun l => deepest h es.*2 path l = true) es.*2.
Proof.
  destruct (visit_fold h path es) as (Hc & Hle & Hatt & ->).
  apply filter_ext_elem. intros l Hl. rewrite deepest_spec. split.
  - intros [Hcand Hd]. split; [done|]. intros l' Hl' Hc'. rewrite Hd. by apply Hle.
  - intros [Hcand Hmax]. split; [done|].
    pose proof (Hle l Hl Hcand) as Hup.
    destruct Hatt as [H0|(l' & Hl' & Hc' & Hd')].
    + pose proof (depth_nonneg h l). lia.
    + specialize (Hmax l' Hl' Hc'). lia.
Qed.

Lemma deepest_perm (vs1 vs2 : list loc) (path : string) (l : loc) :
  vs1 ≡ₚ vs2 -> deepest h vs1 path l = true <-> deepest h vs2 path l = true.
Proof.
  intros Hp. rewrite !deepest_spec. apply and_iff_compat_l.
  split; intros Hall l' Hl'; apply Hall; [by rewrite Hp|by rewrite <- Hp].
Qed.

Context {sorter : SliceSorter}.
Hypothesis sort_ok : SortContract sorter.

Lemma getStoragesByPath_perm (es : list (string * loc)) (path : string) :
  getStoragesByPath h es path ≡ₚ filter (fun l => deepest h es.*2 path l = true) es.*2.
Proof.
  unfold getStoragesByPath.
  pose proof (resolved_before_sort es path) as Hr.
  destruct (fold_left (visit h path) es ([], 0)) as [storages cur].
  simpl in Hr. rewrite <- Hr. apply sort_ok.
Qed.

Lemma getStoragesByPath_sorted (es : list (string * loc)) (path : string) :
  StronglySorted (fun a b => lessMountPath h b a = false) (getStoragesByPath h es path).
Proof.
  unfold getStoragesByPath.
  destruct (fold_left (visit h path) es ([], 0)) as [storages cur].
  apply sort_ok, lessMountPath_ok.
Qed.

Lemma getStoragesByPath_registry
    (m : gmap string loc) (es : list (string * loc)) (path : string) :
  RangeOf m es ->
  getStoragesByPath h es path
    ≡ₚ filter (fun l => deepest h (map_to_list m).*2 path l = true) (map_to_list m).*2.
Proof.
  intros Hes.
  assert (es.*2 ≡ₚ (map_to_list m).*2) as Hvs by (by rewrite Hes).
  rewrite getStoragesByPath_perm, <- Hvs.
  rewrite (filter_ext_elem (fun l => deepest h (map_to_list m).*2 path l = true)
             (fun l => deepest h es.*2 path l = true)); [done|].
  intros l _. symmetry. by apply deepest_perm.
Qed.

(** C1. [getStoragesByPath] returns exactly the registered drivers that
    are deepest prefix-matches of the path: a driver is a candidate when
    the path equals its actual virtual path (the root counting as the
    empty prefix) or starts with it followed by a slash, and a candidate
    is returned exactly when no candidate has more slashes in its actual
    virtual path.  Each such driver is returned as often as the registry
    holds it. *)
Theorem getStoragesByPath_deepest_prefix_match
    (m : gmap string loc) (es : list (string * loc)) (path : string) :
  RangeOf m es ->
  getStoragesByPath h es path
    ≡ₚ filter (fun l => deepest h (map_to_list m).*2 path l = true) (map_to_list m).*2 /\
  forall l, l ∈ getStoragesByPath h es path <->
    (exists k, m !! k = Some l) /\
    candidate h path l = true /\
    (forall k' l', m !! k' = Some l' -> candidate h path l' = true ->
                   depth h l' <= depth h l).
Proof.
  intros Hes.
  pose proof (getStoragesByPath_registry m es path Hes) as Hperm.
  split; [exact Hperm|].
  assert (forall l, l ∈ (map_to_list m).*2 <-> exists k, m !! k = Some l) as Hin.
  { intros l. apply RangeOf_values. unfold RangeOf. reflexivity. }
  intros l. rewrite Hperm, list_elem_of_filter, deepest_spec, Hin. split.
  - intros [[Hc Hmax] Hk]. split_and!; [done..|].
    intros k' l' Hk'. apply Hmax. apply Hin. by exists k'.
  - intros (Hk & Hc & Hmax). split_and!; [done| |done].
    intros l' [k' Hk']%Hin. by apply (Hmax k').
Qed.

End ResolverSpec.


Section Determinism.
Context {Drv : Type} `{!DriverOps Drv}.

(** With distinct mount paths the sorted slice is determined by the
    registry alone. *)
Lemma getStoragesByPath_order_irrelevant
    (sorter sorter' : SliceSorter)
    (sort_ok : SortContract sorter) (sort_ok' : SortContract sorter')
    (h : gmap loc Drv) (m : gmap string loc)
    (es es' : list (string * loc)) (path : string) :
  RangeOf m es -> RangeOf m es' ->
  distinct_mounts h (map_to_list m).*2 ->
  getStoragesByPath (sorter:=sorter) h es path
  = getStoragesByPath (sorter:=sorter') h es' path.
Proof.
  intros Hes Hes' Hnd.
  pose proof (getStoragesByPath_registry h sort_ok m es path Hes) as Hp.
  pose proof (getStoragesByPath_registry h sort_ok' m es' path Hes') as Hp'.
  apply (StronglySorted_unique_strong (fun a b => lessMountPath h b a = false)).
  - intros a b Ha Hb Hba Hab.
    apply (NoDup_fmap_eq (fun l => MountPath (storageOf h l)) (map_to_list m).*2);
      [exact Hnd| | |].
    + rewrite Hp in Ha. by apply list_elem_of_filter in Ha as [_ Ha].
    + rewrite Hp' in Hb. by apply list_elem_of_filter in Hb as [_ Hb].
    + by apply ltb_total.
  - by apply getStoragesByPath_sorted.
  - by apply getStoragesByPath_sorted.
  - by rewrite Hp, Hp'.
Qed.


End Determinism.

(** ** The balancer *)

Lemma index_in_range {A : Type} (storages : list A) (i : Z) :
  0 <= i < Z.of_nat (length storages) ->
  exists x, storages !! Z.to_nat i = Some x /\ index storages i = Returned x.
Proof.
  intros Hi. unfold index.
  destruct (storages !! Z.to_nat i) as [x|] eqn:Hx.
  - exists x. split; [done|].
    replace (0 <=? i) with true by (symmetry; apply Z.leb_le; lia).
    replace (i <? Z.of_nat (length storages)) with true by (symmetry; apply Z.ltb_lt; lia).
    done.
  - apply lookup_ge_None in Hx. lia.
Qed.

Lemma int_wrap_id (z : Z) : - 2 ^ 63 <= z <= max_int -> int_wrap z = z.
Proof.
  unfold int_wrap, max_int. intros Hz.
  rewrite Z.mod_small; lia.
Qed.

Section Balancer.
Context {Drv DB : Type} `{!DriverOps Drv} `{!Gorm DB} {sorter : SliceSorter}.
Implicit Types (st : State Drv DB) (es : list (string * loc)).

(** One balanced selection on a group of two or more, whatever the
    cursor holds. *)
Lemma GetBalancedStorage_group es st path :
  let storages := getStoragesByPath (heap st) es (utils.StandardizePath path) in
  let key := groupKey (heap st) storages in
  let i := nextIndex (balanceMap st !! key) (Z.of_nat (length storages)) in
  (2 <= length storages)%nat ->
  GetBalancedStorage es st path =
  (match index storages i with
   | Returned chosen => Returned (Some chosen)
   | Panicked => Panicked
   end,
   setBalanceMap (<[key := i]> (balanceMap st)) st).
Proof.
  intros storages key i Hn. unfold GetBalancedStorage.
  fold storages.
  destruct storages as [|first [|second rest]] eqn:Hs; simpl in Hn; [lia..|].
  replace (Z.of_nat (length (first :: second :: rest)) =? 0) with false
    by (symmetry; apply Z.eqb_neq; simpl length; lia).
  replace (Z.of_nat (length (first :: second :: rest)) =? 1) with false
    by (symmetry; apply Z.eqb_neq; simpl length; lia).
  change (index (first :: second :: rest) 0) with (Returned first).
  cbv zeta. subst key i. unfold groupKey, nextIndex.
  destruct (balanceMap st !! _) as [cur|]; destruct (index _ _); reflexivity.
Qed.

End Balancer.

Section BalancerSpec.
Context {Drv DB : Type} `{!DriverOps Drv} `{!Gorm DB} {sorter : SliceSorter}.
Implicit Types (st : State Drv DB) (es : list (string * loc)).

Lemma nextIndex_in_range (cursor : option Z) (n : Z) :
  2 <= n ->
  (forall cur, cursor = Some cur -> 0 <= cur < max_int) ->
  nextIndex cursor n = match cursor with
                       | Some cur => (cur + 1) mod n
                       | None => 0
                       end /\
  0 <= nextIndex cursor n < n.
Proof.
  intros Hn Hc. destruct cursor as [cur|]; simpl; [|lia].
  specialize (Hc cur eq_refl).
  rewrite int_wrap_id by (unfold max_int in *; lia).
  rewrite Z.rem_mod_nonneg by lia.
  split; [done|]. apply Z.mod_pos_bound. lia.
Qed.

(** Removing a storage leaves the cursors alone. *)
Lemma DeleteStorageById_keeps_cursors st (id : N) :
  balanceMap (DeleteStorageById st id).2 = balanceMap st.
Proof.
  unfold DeleteStorageById, GetStorageByVirtualPath, callDrop.
  destruct (db.GetStorageById _ _) as [e|storage]; [done|].
  destruct (storagesMap st !! MountPath storage) as [l|]; [|done].
  destruct (heap st !! l) as [d|]; [|done].
  destruct (Drop d) as [d' [e|]]; [done|]. simpl.
  by destruct (db.DeleteStorageById _ _) as [db' [e|]].
Qed.

Lemma CreateStorage_keeps_cursors (now : Time) st (storage : Storage) :
  balanceMap (CreateStorage now st storage).2 = balanceMap st.
Proof.
  unfold CreateStorage, callInit.
  destruct (GetDriverNew _) as [e|d0]; simpl; [done|].
  destruct (db.CreateStorage _ _) as [[db' storage'] [e|]]; simpl; [done|].
  rewrite lookup_insert_eq. by destruct (Init d0 storage') as [d' [e|]].
Qed.

Lemma UpdateStorage_keeps_cursors (now : Time) st (storage : Storage) :
  balanceMap (UpdateStorage now st storage).2 = balanceMap st.
Proof.
  unfold UpdateStorage, GetStorageByVirtualPath, callDrop, callInit.
  destruct (db.GetStorageById _ _) as [e|old]; simpl; [done|].
  destruct (negb (String.eqb (Driver old) _)); simpl; [done|].
  destruct (db.UpdateStorage _ _) as [[db' storage'] [e|]]; simpl; [done|].
  destruct (negb (String.eqb (MountPath old) _)); simpl;
    (destruct (storagesMap st !! MountPath old) as [l|]; simpl; [|done]);
    (destruct (heap st !! l) as [d|]; simpl; [|done]);
    (destruct (Drop d) as [d1 [e|]]; simpl; [done|]);
    rewrite lookup_insert_eq; by destruct (Init d1 storage') as [d2 [e|]].
Qed.

(** C9. On a resolved group of [N >= 2] drivers, with cursors that are
    values the balancer can have stored, [GetBalancedStorage] uses the
    index 0 when the group has no cursor yet and the stored cursor plus
    one modulo [N] otherwise; that index is within the group (also when
    the cursor is stale and exceeds [N]: deleting a storage leaves the
    cursors as they are), the call does not panic and returns the member
    of the group at that index. *)
Theorem GetBalancedStorage_returns_group_member es st path :
  let storages := getStoragesByPath (heap st) es (utils.StandardizePath path) in
  let key := groupKey (heap st) storages in
  let N := Z.of_nat (length storages) in
  (2 <= length storages)%nat ->
  cursors_ok (balanceMap st) ->
  (forall id, balanceMap (DeleteStorageById st id).2 = balanceMap st) /\
  exists i chosen,
    match balanceMap st !! key with
    | Some cur => i = (cur + 1) mod N
    | None => i = 0
    end /\
    0 <= i < N /\
    storages !! Z.to_nat i = Some chosen /\
    chosen ∈ storages /\
    GetBalancedStorage es st path
    = (Returned (Some chosen), setBalanceMap (<[key := i]> (balanceMap st)) st).
Proof.
  intros storages key N Hn Hcur.
  split; [intros id; apply DeleteStorageById_keeps_cursors|].
  pose proof (GetBalancedStorage_group es st path Hn) as Hcall.
  fold storages key N in Hcall. cbv zeta in Hcall.
  destruct (nextIndex_in_range (balanceMap st !! key) N) as [Hi Hrange];
    [lia|intros cur Hk; by apply (Hcur key)|].
  destruct (index_in_range storages _ Hrange) as (chosen & Hlook & Hidx).
  exists (nextIndex (balanceMap st !! key) N), chosen.
  split_and!; [by destruct (balanceMap st !! key)|lia..|done| |].
  - by apply list_elem_of_lookup_2 in Hlook.
  - by rewrite Hcall, Hidx.
Qed.

(** The balancer keeps its cursors within the range it relies on. *)
Lemma GetBalancedStorage_cursors_ok es st path :
  Z.of_nat (length (getStoragesByPath (heap st) es (utils.StandardizePath path)))
    <= max_int ->
  cursors_ok (balanceMap st) ->
  cursors_ok (balanceMap (GetBalancedStorage es st path).2).
Proof.
  intros Hlen Hcur.
  destruct (decide (2 <= length (getStoragesByPath (heap st) es
                                   (utils.StandardizePath path)))%nat) as [Hn|Hn].
  - rewrite (GetBalancedStorage_group es st path Hn). simpl.
    intros k cur. rewrite lookup_insert. case_decide; [|by apply Hcur].
    intros [= <-].
    destruct (nextIndex_in_range
                (balanceMap st !! groupKey (heap st)
                   (getStoragesByPath (heap st) es (utils.StandardizePath path)))
                (Z.of_nat (length (getStoragesByPath (heap st) es
                                     (utils.StandardizePath path)))))
      as [_ Hr]; [lia|intros c Hc; by apply Hcur in Hc|lia].
  - unfold GetBalancedStorage.
    destruct (getStoragesByPath (heap st) es (utils.StandardizePath path))
      as [|x [|y rest]]; simpl in *; [done..|lia].
Qed.

End BalancerSpec.

Section RoundRobin.
Context {Drv DB : Type} `{!DriverOps Drv} `{!Gorm DB} {sorter : SliceSorter}.
Hypothesis sort_ok : SortContract sorter.
Implicit Types (st : State Drv DB) (es : list (string * loc)).

(** The rotation continues from a stored cursor [c]: the [j]-th further
    call selects index [(c + 1 + j) mod N]. *)
Lemma balanced_calls_from_cursor
    (storages : list loc) (ess : list (list (string * loc))) st path (c : Z) :
  Forall (RangeOf (storagesMap st)) ess ->
  distinct_mounts (heap st) (map_to_list (storagesMap st)).*2 ->
  storages = getStoragesByPath (heap st) (map_to_list (storagesMap st))
               (utils.StandardizePath path) ->
  (2 <= length storages)%nat ->
  Z.of_nat (length storages) <= max_int ->
  balanceMap st !! groupKey (heap st) storages = Some c ->
  0 <= c < Z.of_nat (length storages) ->
  (balanced_calls ess st path).1
  = (fun j : nat => Returned (storages !! Z.to_nat
                        ((c + 1 + Z.of_nat j) mod Z.of_nat (length storages))))
      <$> seq 0 (length ess).
Proof.
  intros Hess Hnd Hs Hn Hmax. revert st c Hess Hnd Hs.
  induction ess as [|es ess IH]; intros st c Hess Hnd Hs Hc Hcr; [done|].
  apply Forall_cons in Hess as [Hes Hess].
  assert (getStoragesByPath (heap st) es (utils.StandardizePath path) = storages) as Hsame.
  { rewrite Hs.
    apply (getStoragesByPath_order_irrelevant _ _ sort_ok sort_ok _ (storagesMap st));
      [done|unfold RangeOf; reflexivity|done]. }
  simpl.
  pose proof (GetBalancedStorage_group es st path) as Hcall.
  cbv zeta in Hcall. rewrite Hsame in Hcall. specialize (Hcall Hn).
  rewrite Hc in Hcall. rewrite Hcall. clear Hcall.
  destruct (nextIndex_in_range (Some c) (Z.of_nat (length storages))) as [Hi Hr];
    [lia|intros ? [= <-]; lia|].
  rewrite Hi in *.
  destruct (index_in_range storages _ Hr) as (chosen & Hlook & ->).
  set (st' := setBalanceMap _ st).
  specialize (IH st' ((c + 1) mod Z.of_nat (length storages))).
  destruct (balanced_calls ess st' path) as [rs st''] eqn:Hrest. simpl in IH |- *.
  rewrite IH; [|done|done|done|by apply lookup_insert_eq|done].
  f_equal.
  - by rewrite Z.add_0_r, Hlook.
  - rewrite <- fmap_S_seq, <- list_fmap_compose.
    apply list_fmap_ext. intros _ j _. simpl. do 3 f_equal.
    replace ((c + 1) mod Z.of_nat (length storages) + 1 + Z.of_nat j)
      with ((c + 1) mod Z.of_nat (length storages) + (1 + Z.of_nat j)) by lia.
    rewrite Zplus_mod_idemp_l. f_equal. lia.
Qed.

(** C2, as the code has it.  On a balance group of [N >= 2] drivers that
    has no cursor yet, consecutive calls [GetBalancedStorage] on the
    same path, with nothing else touching the registry or the cursors,
    return the members at indices [0, 1, ..., N-1] in that order and
    then start over at 0: the [j]-th call (counting from 0) returns the
    member at index [j mod N]. *)
Theorem balanced_calls_round_robin
    (storages : list loc) (ess : list (list (string * loc))) st path :
  Forall (RangeOf (storagesMap st)) ess ->
  distinct_mounts (heap st) (map_to_list (storagesMap st)).*2 ->
  storages = getStoragesByPath (heap st) (map_to_list (storagesMap st))
               (utils.StandardizePath path) ->
  (2 <= length storages)%nat ->
  Z.of_nat (length storages) <= max_int ->
  balanceMap st !! groupKey (heap st) storages = None ->
  (balanced_calls ess st path).1
  = (fun j : nat => Returned (storages !! (j mod length storages)%nat))
      <$> seq 0 (length ess).
Proof.
  intros Hess Hnd Hs Hn Hmax Hnone.
  destruct ess as [|es ess]; [done|].
  apply Forall_cons in Hess as [Hes Hess].
  assert (getStoragesByPath (heap st) es (utils.StandardizePath path) = storages) as Hsame.
  { rewrite Hs.
    apply (getStoragesByPath_order_irrelevant _ _ sort_ok sort_ok _ (storagesMap st));
      [done|unfold RangeOf; reflexivity|done]. }
  simpl.
  pose proof (GetBalancedStorage_group es st path) as Hcall.
  cbv zeta in Hcall. rewrite Hsame in Hcall. specialize (Hcall Hn).
  rewrite Hnone in Hcall. simpl in Hcall. rewrite Hcall. clear Hcall.
  destruct (index_in_range storages 0) as (chosen & Hlook & ->); [lia|].
  set (st' := setBalanceMap _ st).
  pose proof (balanced_calls_from_cursor storages ess st' path 0) as Hrest.
  destruct (balanced_calls ess st' path) as [rs st'']. simpl in Hrest |- *.
  rewrite Hrest; [|done|done|done|done|done|by apply lookup_insert_eq|lia].
  f_equal.
  - rewrite Nat.Div0.mod_0_l. by rewrite <- Hlook.
  - rewrite <- fmap_S_seq, <- list_fmap_compose.
    apply list_fmap_ext. intros _ j _. simpl. do 2 f_equal.
    replace (0 + 1 + Z.of_nat j) with (Z.of_nat (S j)) by lia.
    rewrite <- Nat2Z.inj_mod. apply Nat2Z.id.
Qed.

End RoundRobin.

(** ** The virtual directory synthesizer *)

Section Synthesizer.
Context {Drv : Type} `{!DriverOps Drv}.
Variable h : gmap loc Drv.
Variable prefix : string.

(** One turn of the loop, read through [contributes] and [childName]. *)
Lemma emit_unfold (files : list Object.t) (set : gset string) (v : loc) :
  emit h prefix (files, set) v =
  if contributes h prefix v
  then if decide (childName h prefix v ∈ set) then (files, set)
       else (files ++ [entryOf h prefix v], {[childName h prefix v]} ∪ set)
  else (files, set).
Proof.
  unfold emit, contributes, childName, entryOf, childName.
  destruct (utils.IsBalance _); [done|]. simpl.
  destruct (_ <=? _)%nat; [done|]. simpl.
  destruct (Strings.HasPrefix _ prefix); done.
Qed.

(** The loop invariant: [set] holds the names listed so far, there is
    one entry per name, the names are those of the contributing
    storages seen, and each entry was made from the first storage, in
    the order of the loop, that contributes its name. *)
Lemma emit_fold (storages : list loc) :
  let r := fold_left (emit h prefix) storages ([], ∅) in
  (forall n, n ∈ r.2 <-> n ∈ Object.Name <$> r.1) /\
  NoDup (Object.Name <$> r.1) /\
  (forall n, n ∈ Object.Name <$> r.1 <->
     exists v, v ∈ storages /\ contributes h prefix v = true /\ childName h prefix v = n) /\
  (forall f, f ∈ r.1 ->
     exists before v after,
       storages = before ++ v :: after /\
       contributes h prefix v = true /\
       f = entryOf h prefix v /\
       forall v', v' ∈ before -> contributes h prefix v' = true ->
                  childName h prefix v' <> Object.Name f).
Proof.
  induction storages as [|e storages' IH] using rev_ind; simpl.
  - split_and!.
    + intros n. rewrite elem_of_nil. set_solver.
    + constructor.
    + intros n. rewrite elem_of_nil. split; [done|].
      by intros (v & ?%elem_of_nil & _).
    + by intros f ?%elem_of_nil.
  - rewrite fold_left_app. simpl.
    destruct (fold_left (emit h prefix) storages' ([], ∅)) as [files set] eqn:E.
    simpl in IH. destruct IH as (Hset & Hnd & Hnames & Hfirst).
    assert (forall f, f ∈ files ->
              exists before v after,
                storages' ++ [e] = before ++ v :: after /\
                contributes h prefix v = true /\ f = entryOf h prefix v /\
                forall v', v' ∈ before -> contributes h prefix v' = true ->
                           childName h prefix v' <> Object.Name f) as Hold.
    { intros f (before & v & after & -> & ? & ? & ?)%Hfirst.
      exists before, v, (after ++ [e]). by rewrite <- app_assoc. }
    rewrite emit_unfold.
    destruct (contributes h prefix e) eqn:Hc; [destruct (decide _) as [Hin|Hin]|]; simpl.
    + split_and!; [done..| |done].
      intros n. rewrite Hnames. split.
      * intros (v & ? & ? & ?). exists v. rewrite elem_of_app. auto.
      * intros (v & [? | ->%list_elem_of_singleton]%elem_of_app & ? & <-); [by exists v|].
        by apply Hnames, Hset.
    + split_and!.
      * intros n. rewrite fmap_app, elem_of_app, elem_of_union, <- Hset. simpl.
        rewrite list_elem_of_singleton, elem_of_singleton. tauto.
      * rewrite fmap_app. simpl. apply NoDup_app. split_and!; [done| |apply NoDup_singleton].
        intros n Hn ->%list_elem_of_singleton. by apply Hin, Hset.
      * intros n. rewrite fmap_app, elem_of_app, Hnames. simpl.
        rewrite list_elem_of_singleton. split.
        -- intros [(v & ? & ? & ?)| ->]; [exists v|exists e]; rewrite elem_of_app;
             rewrite ?list_elem_of_singleton; auto.
        -- intros (v & [? | ->%list_elem_of_singleton]%elem_of_app & ? & <-);
             [left; by exists v|by right].
      * intros f [Hf| ->%list_elem_of_singleton]%elem_of_app; [by apply Hold|].
        exists storages', e, []. split_and!; [done..|].
        intros v' Hv' Hc' Heq. apply Hin, Hset, Hnames. by exists v'.
    + split_and!; [done..| |done].
      intros n. rewrite Hnames. split.
      * intros (v & ? & ? & ?). exists v. rewrite elem_of_app. auto.
      * intros (v & [? | ->%list_elem_of_singleton]%elem_of_app & ? & <-); [by exists v|].
        congruence.
Qed.

End Synthesizer.

Section SynthesizerSpec.
Context {Drv : Type} `{!DriverOps Drv} {sorter : SliceSorter}.
Hypothesis sort_ok : SortContract sorter.
Variable h : gmap loc Drv.

Lemma lessIndexMountPath_ok : LessOk (lessIndexMountPath h).
Proof.
  unfold lessIndexMountPath. split.
  - intros x. rewrite Z.eqb_refl. apply ltb_irrefl.
  - intros x y z.
    destruct (Z.eqb_spec (Index (storageOf h x)) (Index (storageOf h y))) as [Exy|Exy];
    destruct (Z.eqb_spec (Index (storageOf h y)) (Index (storageOf h z))) as [Eyz|Eyz];
    destruct (Z.eqb_spec (Index (storageOf h x)) (Index (storageOf h z))) as [Exz|Exz];
    rewrite ?Z.ltb_lt; try lia; try apply ltb_trans.
  - intros x y z.
    destruct (Z.eqb_spec (Index (storageOf h x)) (Index (storageOf h y))) as [Exy|Exy];
    destruct (Z.eqb_spec (Index (storageOf h y)) (Index (storageOf h z))) as [Eyz|Eyz];
    destruct (Z.eqb_spec (Index (storageOf h x)) (Index (storageOf h z))) as [Exz|Exz];
    rewrite ?Z.ltb_ge; try lia; try apply ltb_negtrans.
Qed.

(** What [GetStorageVirtualFilesByPath] lists: one entry per name that
    some storage contributes, made from the storage that comes first
    by (Index, MountPath) among those contributing the name. *)
Lemma virtual_files_spec (vs : list loc) (prefix : string) :
  let files := GetStorageVirtualFilesByPath h vs prefix in
  let p := dirPrefix prefix in
  NoDup (Object.Name <$> files) /\
  (forall n, n ∈ Object.Name <$> files <->
     exists v, v ∈ vs /\ contributes h p v = true /\ childName h p v = n) /\
  (forall f, f ∈ files ->
     exists v, v ∈ vs /\ contributes h p v = true /\ f = entryOf h p v /\
       forall v', v' ∈ vs -> contributes h p v' = true ->
                  childName h p v' = Object.Name f ->
                  lessIndexMountPath h v' v = false).
Proof.
  intros files p. subst files. unfold GetStorageVirtualFilesByPath.
  fold (dirPrefix prefix). fold p.
  destruct (sort_ok loc (lessIndexMountPath h) vs) as [Hperm Hsorted].
  specialize (Hsorted lessIndexMountPath_ok).
  destruct (emit_fold h p (sort_Slice (lessIndexMountPath h) vs))
    as (_ & Hnd & Hnames & Hfirst).
  split_and!; [done| |].
  - intros n. rewrite Hnames. by setoid_rewrite Hperm.
  - intros f (before & v & after & Hsplit & Hc & -> & Hno)%Hfirst.
    exists v. split_and!; [|done..|].
    + rewrite <- Hperm, Hsplit, elem_of_app, elem_of_cons. auto.
    + intros v' Hv' Hc' Hname.
      rewrite <- Hperm, Hsplit, elem_of_app, elem_of_cons in Hv'.
      rewrite Hsplit in Hsorted.
      apply StronglySorted_app in Hsorted as (_ & _ & Hright).
      apply StronglySorted_cons in Hright as [Hafter _].
      destruct Hv' as [Hv'|[->|Hv']].
      * by destruct (Hno v' Hv' Hc').
      * apply lessIndexMountPath_ok.
      * rewrite Forall_forall in Hafter. by apply Hafter.
Qed.

End SynthesizerSpec.

Lemma NoDup_Name_eq (files : list Object.t) (f g : Object.t) :
  NoDup (Object.Name <$> files) -> f ∈ files -> g ∈ files ->
  Object.Name f = Object.Name g -> f = g.
Proof. apply NoDup_fmap_eq. Qed.

Section FiveMounts.
Context {Drv : Type} `{!DriverOps Drv} {sorter : SliceSorter}.
Hypothesis sort_ok : SortContract sorter.
Variable h : gmap loc Drv.
Variables l1 l2 l3 l4 l5 : loc.
Hypothesis mount1 : MountPath (storageOf h l1) = "/a/b".
Hypothesis mount2 : MountPath (storageOf h l2) = "/a/c".
Hypothesis mount3 : MountPath (storageOf h l3) = "/a/d/e".
Hypothesis mount4 : MountPath (storageOf h l4) = "/a/b.balance1".
Hypothesis mount5 : MountPath (storageOf h l5) = "/av".
Variable vs : list loc.
Hypothesis registered : vs ≡ₚ [l1; l2; l3; l4; l5].

Local Ltac on_mount H := unfold entryOf, contributes, childName; rewrite H; reflexivity.

Lemma five_cases (v : loc) : v ∈ vs -> v = l1 \/ v = l2 \/ v = l3 \/ v = l4 \/ v = l5.
Proof. rewrite registered, !elem_of_cons, elem_of_nil. tauto. Qed.

Lemma five_under_a (files : list Object.t) :
  files = GetStorageVirtualFilesByPath h vs "/a" ->
  files ≡ₚ [Object.mk "b" 0 (Modified (storageOf h l1)) true;
            Object.mk "c" 0 (Modified (storageOf h l2)) true;
            Object.mk "d" 0 (Modified (storageOf h l3)) true].
Proof.
  intros ->.
  destruct (virtual_files_spec sort_ok h vs "/a") as (Hnd & Hnames & Hfrom).
  change (dirPrefix "/a") with "/a/" in *.
  assert (contributes h "/a/" l1 = true) as C1 by on_mount mount1.
  assert (contributes h "/a/" l2 = true) as C2 by on_mount mount2.
  assert (contributes h "/a/" l3 = true) as C3 by on_mount mount3.
  assert (contributes h "/a/" l4 = false) as C4 by on_mount mount4.
  assert (contributes h "/a/" l5 = false) as C5 by on_mount mount5.
  assert (entryOf h "/a/" l1 = Object.mk "b" 0 (Modified (storageOf h l1)) true)
    as E1 by on_mount mount1.
  assert (entryOf h "/a/" l2 = Object.mk "c" 0 (Modified (storageOf h l2)) true)
    as E2 by on_mount mount2.
  assert (entryOf h "/a/" l3 = Object.mk "d" 0 (Modified (storageOf h l3)) true)
    as E3 by on_mount mount3.
  assert (childName h "/a/" l1 = "b") as N1 by on_mount mount1.
  assert (childName h "/a/" l2 = "c") as N2 by on_mount mount2.
  assert (childName h "/a/" l3 = "d") as N3 by on_mount mount3.
  assert (forall f, f ∈ GetStorageVirtualFilesByPath h vs "/a" ->
            f = entryOf h "/a/" l1 \/ f = entryOf h "/a/" l2 \/ f = entryOf h "/a/" l3)
    as Hshape.
  { intros f (v & Hv & Hc & -> & _)%Hfrom.
    destruct (five_cases v Hv) as [-> | [-> | [-> | [-> | ->]]]]; auto; congruence. }
  assert (forall v, v ∈ vs -> contributes h "/a/" v = true ->
            entryOf h "/a/" v ∈ GetStorageVirtualFilesByPath h vs "/a") as Hlisted.
  { intros v Hv Hc.
    assert (childName h "/a/" v ∈ Object.Name <$> GetStorageVirtualFilesByPath h vs "/a")
      as (f & Hname & Hf)%list_elem_of_fmap by (apply Hnames; by exists v).
    destruct (Hshape f Hf) as [-> | [-> | ->]];
      destruct (five_cases v Hv) as [-> | [-> | [-> | [-> | ->]]]];
      try congruence; try done;
      unfold entryOf in Hname; simpl in Hname;
      rewrite ?N1, ?N2, ?N3 in Hname; discriminate. }
  apply NoDup_Permutation.
  - eapply NoDup_fmap_1, Hnd.
  - apply (NoDup_fmap_1 Object.Name). simpl.
    apply (bool_decide_unpack _). by vm_compute.
  - intros f. rewrite <- E1, <- E2, <- E3, !elem_of_cons, elem_of_nil. split.
    + intros Hf. destruct (Hshape f Hf) as [-> | [-> | ->]]; auto.
    + intros [-> | [-> | [-> | []]]]; apply Hlisted; try done;
        rewrite registered, !elem_of_cons; auto 6.
Qed.

Lemma five_under_root (files : list Object.t) :
  files = GetStorageVirtualFilesByPath h vs "/" ->
  exists w,
    w ∈ [l1; l2; l3] /\
    (forall v, v ∈ [l1; l2; l3] -> lessIndexMountPath h v w = false) /\
    files ≡ₚ [Object.mk "a" 0 (Modified (storageOf h w)) true;
              Object.mk "av" 0 (Modified (storageOf h l5)) true].
Proof.
  intros ->.
  destruct (virtual_files_spec sort_ok h vs "/") as (Hnd & Hnames & Hfrom).
  change (dirPrefix "/") with "/" in *.
  assert (contributes h "/" l1 = true) as C1 by on_mount mount1.
  assert (contributes h "/" l2 = true) as C2 by on_mount mount2.
  assert (contributes h "/" l3 = true) as C3 by on_mount mount3.
  assert (contributes h "/" l4 = false) as C4 by on_mount mount4.
  assert (contributes h "/" l5 = true) as C5 by on_mount mount5.
  assert (childName h "/" l1 = "a") as N1 by on_mount mount1.
  assert (childName h "/" l2 = "a") as N2 by on_mount mount2.
  assert (childName h "/" l3 = "a") as N3 by on_mount mount3.
  assert (childName h "/" l5 = "av") as N5 by on_mount mount5.
  assert (forall v, v ∈ [l1; l2; l3; l4; l5] -> v ∈ vs) as Hreg
    by (intros v; by rewrite registered).
  assert (forall v, v ∈ vs -> contributes h "/" v = true ->
            childName h "/" v = "a" /\ v ∈ [l1; l2; l3] \/
            childName h "/" v = "av" /\ v = l5) as Hkind.
  { intros v Hv Hc. rewrite !elem_of_cons.
    destruct (five_cases v Hv) as [-> | [-> | [-> | [-> | ->]]]]; auto 6; congruence. }
  (* the entry named a, and the storage it was made from *)
  assert ("a" ∈ Object.Name <$> GetStorageVirtualFilesByPath h vs "/")
    as (fa & Hfa_name & Hfa)%list_elem_of_fmap.
  { apply Hnames. exists l1. split_and!; [apply Hreg; left|done..]. }
  destruct (Hfrom fa Hfa) as (w & Hw & Hwc & -> & Hmin).
  simpl in Hfa_name, Hmin.
  destruct (Hkind w Hw Hwc) as [[Hwa Hw3]|[Hwav _]]; [|congruence].
  exists w. split_and!; [done| |].
  { intros v Hv. apply Hmin.
    - apply Hreg. rewrite !elem_of_cons, elem_of_nil in Hv. rewrite !elem_of_cons. tauto.
    - rewrite !elem_of_cons, elem_of_nil in Hv.
      destruct Hv as [-> | [-> | [-> | []]]]; done.
    - rewrite !elem_of_cons, elem_of_nil in Hv.
      destruct Hv as [-> | [-> | [-> | []]]]; congruence. }
  assert (entryOf h "/" w = Object.mk "a" 0 (Modified (storageOf h w)) true) as Ew
    by (unfold entryOf; by rewrite Hwa).
  assert (entryOf h "/" l5 = Object.mk "av" 0 (Modified (storageOf h l5)) true) as E5
    by (unfold entryOf; by rewrite N5).
  apply NoDup_Permutation.
  - eapply NoDup_fmap_1, Hnd.
  - apply (NoDup_fmap_1 Object.Name). simpl.
    apply (bool_decide_unpack _). by vm_compute.
  - intros f. rewrite <- Ew, <- E5, !elem_of_cons, elem_of_nil. split.
    + intros Hf. destruct (Hfrom f Hf) as (u & Hu & Huc & Hfu & _).
      destruct (Hkind u Hu Huc) as [[Hua _]|[_ ->]]; [left|by auto].
      apply (NoDup_Name_eq _ _ _ Hnd Hf Hfa). subst f. simpl. congruence.
    + intros [-> | [-> | []]]; [done|].
      assert ("av" ∈ Object.Name <$> GetStorageVirtualFilesByPath h vs "/")
        as (f & Hname & Hf)%list_elem_of_fmap.
      { apply Hnames. exists l5. split_and!; [apply Hreg; rewrite !elem_of_cons; auto 6|done..]. }
      destruct (Hfrom f Hf) as (u & Hu & Huc & -> & _). simpl in Hname.
      destruct (Hkind u Hu Huc) as [[Hua _]|[_ ->]]; [congruence|done].
Qed.

(** C3, as the code has it.  With exactly the mounts [/a/b], [/a/c],
    [/a/d/e], [/a/b.balance1] and [/av] registered, whatever their
    indices and timestamps, [GetStorageVirtualFilesByPath] lists under
    [/] the two folders [a] and [av], and under [/a] the three folders
    [b], [c] and [d], the balance sibling being suppressed.  Every entry
    has size 0, is a folder and carries the [Modified] of the storage
    that comes first by (Index, MountPath) among those that contribute
    its name. *)
Theorem virtual_files_of_five_mounts :
  (exists w,
     w ∈ [l1; l2; l3] /\
     (forall v, v ∈ [l1; l2; l3] -> lessIndexMountPath h v w = false) /\
     GetStorageVirtualFilesByPath h vs "/"
       ≡ₚ [Object.mk "a" 0 (Modified (storageOf h w)) true;
           Object.mk "av" 0 (Modified (storageOf h l5)) true]) /\
  GetStorageVirtualFilesByPath h vs "/a"
    ≡ₚ [Object.mk "b" 0 (Modified (storageOf h l1)) true;
        Object.mk "c" 0 (Modified (storageOf h l2)) true;
        Object.mk "d" 0 (Modified (storageOf h l3)) true].
Proof. split; [by apply five_under_root|by apply five_under_a]. Qed.

End FiveMounts.

(** ** The lifecycle manager *)

Section Lifecycle.
Context {Drv DB : Type} `{!DriverOps Drv} `{!Gorm DB}.
Implicit Types (st : State Drv DB) (storage : Storage).

Lemma GetStorageByVirtualPath_Some st (virtualPath : string) (l : loc) :
  storagesMap st !! virtualPath = Some l ->
  GetStorageByVirtualPath st virtualPath = inr l.
Proof. unfold GetStorageByVirtualPath. by intros ->. Qed.

Lemma GetStorageByVirtualPath_None st (virtualPath : string) :
  storagesMap st !! virtualPath = None ->
  GetStorageByVirtualPath st virtualPath = inl (notFound virtualPath).
Proof. unfold GetStorageByVirtualPath. by intros ->. Qed.

(** C5. When the driver type of an update request differs from that of
    the persisted storage, [UpdateStorage] returns the error
    [driver cannot be changed] and the whole state is as before the
    call: no row written, no registry entry touched, no driver
    dropped or initialised. *)
Theorem UpdateStorage_driver_immutable (now : Time) st storage (oldStorage : Storage) :
  db.GetStorageById (database st) (ID storage) = inr oldStorage ->
  Driver oldStorage <> Driver storage ->
  UpdateStorage now st storage
  = (Returned (Some (Errorf "driver cannot be changed")), st).
Proof.
  intros Hold Hdrv. unfold UpdateStorage. rewrite Hold.
  destruct (String.eqb_spec (Driver oldStorage) (Driver storage)); [done|reflexivity].
Qed.

(** What a successful [DeleteStorageById] has done. *)
Lemma DeleteStorageById_ok st (id : N) st' :
  DeleteStorageById st id = (Returned None, st') ->
  exists storage l d d' db',
    db.GetStorageById (database st) id = inr storage /\
    storagesMap st !! MountPath storage = Some l /\
    heap st !! l = Some d /\
    Drop d = (d', None) /\
    db.DeleteStorageById (database st) id = (db', None) /\
    st' = mkState (delete (MountPath storage) (storagesMap st)) (balanceMap st)
            (<[l := d']> (heap st)) db'.
Proof.
  unfold DeleteStorageById, GetStorageByVirtualPath, callDrop.
  destruct (db.GetStorageById (database st) id) as [e|storage]; [done|].
  destruct (storagesMap st !! MountPath storage) as [l|] eqn:Hl; [|done].
  destruct (heap st !! l) as [d|] eqn:Hd; [|done].
  destruct (Drop d) as [d' [e|]] eqn:Hdrop; [done|]. simpl.
  destruct (db.DeleteStorageById (database st) id) as [db' [e|]] eqn:Hdel; [done|].
  intros [= <-]. by exists storage, l, d, d', db'.
Qed.

(** What a successful [UpdateStorage] has done. *)
Lemma UpdateStorage_ok (now : Time) st storage st' :
  UpdateStorage now st storage = (Returned None, st') ->
  exists oldStorage db' storage' l d d1 d2,
    db.GetStorageById (database st) (ID storage) = inr oldStorage /\
    Driver oldStorage = Driver storage /\
    db.UpdateStorage (database st) (stamped now storage) = (db', storage', None) /\
    MountPath storage' = utils.StandardizePath (MountPath storage) /\
    storagesMap st !! MountPath oldStorage = Some l /\
    heap st !! l = Some d /\
    Drop d = (d1, None) /\
    Init d1 storage' = (d2, None) /\
    st' = mkState
            (<[MountPath storage' := l]>
               (if decide (MountPath oldStorage = MountPath storage')
                then storagesMap st
                else delete (MountPath oldStorage) (storagesMap st)))
            (balanceMap st)
            (<[l := d2]> (<[l := d1]> (heap st))) db'.
Proof.
  unfold UpdateStorage, GetStorageByVirtualPath.
  destruct (db.GetStorageById (database st) (ID storage)) as [e|oldStorage]; [done|].
  destruct (String.eqb_spec (Driver oldStorage) (Driver storage)) as [Hdrv|]; [|done].
  simpl. fold (stamped now storage).
  assert (MountPath (db.UpdateStorage (database st) (stamped now storage)).1.2
          = utils.StandardizePath (MountPath storage)) as Hpath.
  { unfold db.UpdateStorage. by destruct (gorm_Save _ _) as [[? ?] ?]. }
  destruct (db.UpdateStorage (database st) (stamped now storage))
    as [[db' storage'] [e|]] eqn:Hsave; [done|]. simpl in Hpath |- *.
  destruct (storagesMap st !! MountPath oldStorage) as [l|] eqn:Hl;
    [|by destruct (negb _)].
  intros Hrun.
  exists oldStorage, db', storage', l.
  destruct (String.eqb_spec (MountPath oldStorage) (MountPath storage')) as [Heq|Hne];
    simpl in Hrun; unfold callDrop, callInit in Hrun; simpl in Hrun;
    (destruct (heap st !! l) as [d|] eqn:Hd; [|done]);
    (destruct (Drop d) as [d1 [e|]] eqn:Hdrop; [done|]);
    simpl in Hrun; rewrite lookup_insert_eq in Hrun;
    (destruct (Init d1 storage') as [d2 [e|]] eqn:Hinit; [done|]);
    simpl in Hrun; injection Hrun as <-;
    exists d, d1, d2; split_and!; try done;
    by (rewrite decide_True by done) || by (rewrite decide_False by done).
Qed.

(** What a successful [CreateStorage] has done. *)
Lemma CreateStorage_ok (now : Time) st storage st' :
  CreateStorage now st storage = (Returned None, st') ->
  exists fresh_driver db' storage' d',
    GetDriverNew (Driver storage) = inr fresh_driver /\
    db.CreateStorage (database st) (stamped now storage) = (db', storage', None) /\
    MountPath storage' = utils.StandardizePath (MountPath storage) /\
    Init fresh_driver storage' = (d', None) /\
    let l := fresh (dom (heap st)) in
    st' = mkState (<[MountPath storage' := l]> (storagesMap st)) (balanceMap st)
            (<[l := d']> (<[l := fresh_driver]> (heap st))) db'.
Proof.
  unfold CreateStorage. simpl.
  destruct (GetDriverNew (Driver storage)) as [e|fresh_driver]; [done|].
  fold (stamped now storage).
  assert (MountPath (db.CreateStorage (database st) (stamped now storage)).1.2
          = utils.StandardizePath (MountPath storage)) as Hpath.
  { unfold db.CreateStorage. by destruct (gorm_Create _ _) as [[? ?] ?]. }
  destruct (db.CreateStorage (database st) (stamped now storage))
    as [[db' storage'] [e|]] eqn:Hcreate; [done|]. simpl in Hpath |- *.
  unfold callInit. simpl. rewrite lookup_insert_eq.
  destruct (Init fresh_driver storage') as [d' [e|]] eqn:Hinit; [done|]. simpl.
  intros [= <-]. by exists fresh_driver, db', storage', d'.
Qed.

(** C6. A successful [UpdateStorage] whose normalised mount path differs
    from the persisted one moves the driver: the driver object that was
    registered under the old mount path has been dropped and
    initialised again with the new configuration and is registered
    under the new mount path, where [GetStorageByVirtualPath] finds it;
    the old mount path is gone from the registry and looking it up
    fails. *)
Theorem UpdateStorage_rename (now : Time) st storage (oldStorage : Storage) st' :
  db.GetStorageById (database st) (ID storage) = inr oldStorage ->
  UpdateStorage now st storage = (Returned None, st') ->
  MountPath oldStorage <> utils.StandardizePath (MountPath storage) ->
  exists l d d1 d2 storage',
    GetStorageByVirtualPath st (MountPath oldStorage) = inr l /\
    heap st !! l = Some d /\
    Drop d = (d1, None) /\
    Init d1 storage' = (d2, None) /\
    MountPath storage' = utils.StandardizePath (MountPath storage) /\
    heap st' !! l = Some d2 /\
    storagesMap st'
    = <[utils.StandardizePath (MountPath storage) := l]>
        (delete (MountPath oldStorage) (storagesMap st)) /\
    GetStorageByVirtualPath st' (utils.StandardizePath (MountPath storage)) = inr l /\
    GetStorageByVirtualPath st' (MountPath oldStorage)
    = inl (notFound (MountPath oldStorage)).
Proof.
  intros Hold Hrun Hne.
  destruct (UpdateStorage_ok now st storage st' Hrun)
    as (old' & db' & storage' & l & d & d1 & d2
        & Hold' & _ & _ & Hpath & Hl & Hd & Hdrop & Hinit & ->).
  rewrite Hold in Hold'. injection Hold' as <-.
  rewrite Hpath. rewrite decide_False by done.
  exists l, d, d1, d2, storage'. simpl.
  split_and!; try done.
  - by apply GetStorageByVirtualPath_Some.
  - by rewrite lookup_insert_eq.
  - apply GetStorageByVirtualPath_Some. simpl. by rewrite lookup_insert_eq.
  - apply GetStorageByVirtualPath_None. simpl.
    rewrite lookup_insert_ne by done. by rewrite lookup_delete_eq.
Qed.

(** C7. With drivers that expose the configuration they were
    initialised with, a successful [CreateStorage] leaves under the
    normalised mount path a driver whose exposed configuration is the
    one the repository persisted, and so carries the id the repository
    assigned to the row. *)
Theorem CreateStorage_then_lookup (now : Time) st storage st' :
  InitBinds ->
  CreateStorage now st storage = (Returned None, st') ->
  exists l d,
    GetStorageByVirtualPath st' (utils.StandardizePath (MountPath storage)) = inr l /\
    heap st' !! l = Some d /\
    GetStorage d = (db.CreateStorage (database st) (stamped now storage)).1.2 /\
    ID (GetStorage d) = (gorm_Create (database st) (stamped now storage)).1.2.
Proof.
  intros Hbinds Hrun.
  destruct (CreateStorage_ok now st storage st' Hrun)
    as (d0 & db' & storage' & d' & _ & Hcreate & Hpath & Hinit & ->).
  exists (fresh (dom (heap st))), d'. simpl.
  pose proof (Hbinds _ _ _ Hinit) as Hbound.
  split_and!.
  - apply GetStorageByVirtualPath_Some. simpl. by rewrite Hpath, lookup_insert_eq.
  - by rewrite lookup_insert_eq.
  - by rewrite Hcreate.
  - rewrite Hbound. revert Hcreate. unfold db.CreateStorage.
    destruct (gorm_Create _ _) as [[? id] ?]. by intros [= _ <- _].
Qed.

(** C10. [DeleteStorageById] touches the registry in its last step only.
    When the row cannot be loaded, when no driver is registered under
    the row's mount path, when the driver's [Drop] fails or when the
    deletion from the database fails, it returns an error; and whenever
    it ends otherwise than by returning [nil], the registry maps the
    same mount paths to the same drivers as before, so every exact
    lookup answers as before. *)
Theorem DeleteStorageById_failure_keeps_registry st (id : N) :
  let r := DeleteStorageById st id in
  (forall e, db.GetStorageById (database st) id = inl e ->
     r.1 = Returned (Some (WithMessage e "failed get storage"))) /\
  (forall storage,
     db.GetStorageById (database st) id = inr storage ->
     storagesMap st !! MountPath storage = None ->
     r.1 = Returned (Some (WithMessage (notFound (MountPath storage))
                             "failed get storage driver"))) /\
  (forall storage l d d' e,
     db.GetStorageById (database st) id = inr storage ->
     storagesMap st !! MountPath storage = Some l ->
     heap st !! l = Some d ->
     Drop d = (d', Some e) ->
     r.1 = Returned (Some (WithMessage e "failed drop storage"))) /\
  (forall storage l d d' db' e,
     db.GetStorageById (database st) id = inr storage ->
     storagesMap st !! MountPath storage = Some l ->
     heap st !! l = Some d ->
     Drop d = (d', None) ->
     db.DeleteStorageById (database st) id = (db', Some e) ->
     r.1 = Returned (Some (WithMessage e "failed delete storage in database"))) /\
  (r.1 <> Returned None ->
   storagesMap r.2 = storagesMap st /\
   forall virtualPath,
     GetStorageByVirtualPath r.2 virtualPath = GetStorageByVirtualPath st virtualPath).
Proof.
  cbv zeta. unfold DeleteStorageById, GetStorageByVirtualPath, callDrop. split_and!.
  - by intros e ->.
  - by intros storage -> ->.
  - intros storage l d d' e -> -> -> ->. done.
  - intros storage l d d' db' e -> -> -> ->. simpl. by intros ->.
  - destruct (db.GetStorageById (database st) id) as [e|storage]; [done|].
    destruct (storagesMap st !! MountPath storage) as [l|] eqn:Hl; [|done].
    destruct (heap st !! l) as [d|]; [|done].
    destruct (Drop d) as [d' [e|]]; [done|]. simpl.
    destruct (db.DeleteStorageById (database st) id) as [db' [e|]]; done.
Qed.

(** ** The registry along a run *)

(** Whatever a lifecycle call does, it keeps every driver object and
    registers only drivers that were registered before or that it has
    just allocated. *)
Lemma CreateStorage_values (now : Time) st storage :
  let st' := (CreateStorage now st storage).2 in
  dom (heap st) ⊆ dom (heap st') /\
  (storagesMap st' = storagesMap st \/
   exists k, storagesMap st' = <[k := fresh (dom (heap st))]> (storagesMap st) /\
             is_Some (heap st' !! fresh (dom (heap st)))).
Proof.
  cbv zeta. unfold CreateStorage, callInit.
  destruct (GetDriverNew _) as [e|d0]; simpl; [by split; [|left]|].
  destruct (db.CreateStorage _ _) as [[db' storage'] [e|]]; simpl.
  - split; [rewrite dom_insert_L; set_solver|by left].
  - rewrite lookup_insert_eq. destruct (Init d0 storage') as [d' [e|]]; simpl.
    + split; [rewrite !dom_insert_L; set_solver|by left].
    + split; [rewrite !dom_insert_L; set_solver|right].
      exists (MountPath storage'). by rewrite lookup_insert_eq.
Qed.

Lemma UpdateStorage_values (now : Time) st storage :
  let st' := (UpdateStorage now st storage).2 in
  dom (heap st) ⊆ dom (heap st') /\
  (storagesMap st' = storagesMap st \/
   exists old, storagesMap st' = delete old (storagesMap st) \/
     exists new l, storagesMap st !! old = Some l /\
       (storagesMap st' = <[new := l]> (delete old (storagesMap st)) \/
        new = old /\ storagesMap st' = storagesMap st)).
Proof.
  cbv zeta. unfold UpdateStorage, GetStorageByVirtualPath.
  destruct (db.GetStorageById _ _) as [e|old]; simpl; [by split; [|left]|].
  destruct (negb (String.eqb (Driver old) _)); simpl; [by split; [|left]|].
  destruct (db.UpdateStorage _ _) as [[db' storage'] [e|]]; simpl; [by split; [|left]|].
  destruct (String.eqb_spec (MountPath old) (MountPath storage')) as [Heq|Hne]; simpl.
  - destruct (storagesMap st !! MountPath old) as [l|] eqn:Hl; simpl; [|by split; [|left]].
    unfold callDrop, callInit. simpl.
    destruct (heap st !! l) as [d|] eqn:Hd; simpl; [|by split; [|left]].
    destruct (Drop d) as [d1 [e|]]; simpl;
      [split; [rewrite dom_insert_L; set_solver|by left]|].
    rewrite lookup_insert_eq.
    destruct (Init d1 storage') as [d2 [e|]]; simpl;
      (split; [rewrite !dom_insert_L; set_solver|]); [by left|].
    left. rewrite <- Heq. by apply insert_id.
  - destruct (storagesMap st !! MountPath old) as [l|] eqn:Hl; simpl;
      [|split; [done|right; exists (MountPath old); by left]].
    unfold callDrop, callInit. simpl.
    destruct (heap st !! l) as [d|] eqn:Hd; simpl;
      [|split; [done|right; exists (MountPath old); by left]].
    destruct (Drop d) as [d1 [e|]]; simpl;
      [split; [rewrite dom_insert_L; set_solver|right; exists (MountPath old); by left]|].
    rewrite lookup_insert_eq.
    destruct (Init d1 storage') as [d2 [e|]]; simpl;
      (split; [rewrite !dom_insert_L; set_solver|]);
      right; exists (MountPath old); [by left|right].
    exists (MountPath storage'), l. split; [done|by left].
Qed.

Lemma DeleteStorageById_values st (id : N) :
  let st' := (DeleteStorageById st id).2 in
  dom (heap st) ⊆ dom (heap st') /\
  (storagesMap st' = storagesMap st \/
   exists old, storagesMap st' = delete old (storagesMap st)).
Proof.
  cbv zeta. unfold DeleteStorageById, GetStorageByVirtualPath, callDrop.
  destruct (db.GetStorageById _ _) as [e|storage]; simpl; [by split; [|left]|].
  destruct (storagesMap st !! MountPath storage) as [l|]; simpl; [|by split; [|left]].
  destruct (heap st !! l) as [d|]; simpl; [|by split; [|left]].
  destruct (Drop d) as [d' [e|]]; simpl;
    [split; [rewrite dom_insert_L; set_solver|by left]|].
  destruct (db.DeleteStorageById _ _) as [db' [e|]]; simpl;
    (split; [rewrite dom_insert_L; set_solver|]); [by left|right].
  by exists (MountPath storage).
Qed.

End Lifecycle.

Section Runs.
Context {Drv DB : Type} `{!DriverOps Drv} `{!Gorm DB} {sorter : SliceSorter}.
Implicit Types (st : State Drv DB).

(** The balancer writes cursors only. *)
Lemma GetBalancedStorage_frame (es : list (string * loc)) st (path : string) :
  storagesMap (GetBalancedStorage es st path).2 = storagesMap st /\
  heap (GetBalancedStorage es st path).2 = heap st /\
  database (GetBalancedStorage es st path).2 = database st.
Proof.
  unfold GetBalancedStorage.
  destruct (_ =? 0); [done|]. destruct (_ =? 1); [by destruct (index _ 0)|].
  destruct (index _ 0) as [first|]; [|done].
  destruct (balanceMap st !! _); simpl; by destruct (index _ _).
Qed.

(** A call keeps every driver object, and what it leaves registered was
    registered before or has just been allocated. *)
Lemma step_values st st' :
  step st st' ->
  dom (heap st) ⊆ dom (heap st') /\
  forall k l, storagesMap st' !! k = Some l ->
              (exists k0, storagesMap st !! k0 = Some l) \/ l ∉ dom (heap st).
Proof.
  destruct 1 as [now st storage|now st storage|st id|es st path].
  - destruct (CreateStorage_values now st storage) as [Hdom [->|(k0 & -> & _)]];
      (split; [done|]); intros k l; [by eauto|].
    rewrite lookup_insert. case_decide; [|by eauto].
    intros [= <-]. right. apply is_fresh.
  - destruct (UpdateStorage_values now st storage)
      as [Hdom [->|(old & [->|(new & l0 & Hl0 & [->|[_ ->]])])]];
      (split; [done|]); intros k l; try by eauto.
    + intros [_ ?]%lookup_delete_Some. by eauto.
    + rewrite lookup_insert. case_decide; [intros [= <-]; by eauto|].
      intros [_ ?]%lookup_delete_Some. by eauto.
  - destruct (DeleteStorageById_values st id) as [Hdom [->|(old & ->)]];
      (split; [done|]); intros k l; [by eauto|].
    intros [_ ?]%lookup_delete_Some. by eauto.
  - destruct (GetBalancedStorage_frame es st path) as (-> & -> & _). by eauto.
Qed.

(** A driver that has left the registry does not come back. *)
Lemma reaches_retired (l : loc) st st' :
  reaches st st' ->
  retired l (storagesMap st) (heap st) ->
  retired l (storagesMap st') (heap st').
Proof.
  induction 1 as [st|st st1 st2 Hstep _ IH]; [done|].
  intros [Hl Hno]. apply IH.
  destruct (step_values st st1 Hstep) as [Hdom Hvals].
  split; [by apply Hdom|].
  intros k Hk. destruct (Hvals k l Hk) as [[k0 Hk0]|Hfresh]; [by apply (Hno k0)|done].
Qed.

(** The lifecycle keeps the registry well formed. *)
Lemma step_registry_wf st st' :
  step st st' ->
  registry_wf (storagesMap st) (heap st) ->
  registry_wf (storagesMap st') (heap st').
Proof.
  intros Hstep [Hinj Halloc].
  assert (forall k l, storagesMap st !! k = Some l -> l ∈ dom (heap st)) as Hin.
  { intros k l Hk. apply elem_of_dom. by apply (Halloc k). }
  destruct Hstep as [now st storage|now st storage|st id|es st path].
  - destruct (CreateStorage_values now st storage) as [Hdom [->|(k0 & -> & Hnew)]].
    + split; [done|]. intros k l Hk. apply elem_of_dom, Hdom, (Hin k l Hk).
    + split.
      * intros k1 k2 l. rewrite !lookup_insert. repeat case_decide; subst; try done.
        -- intros [= <-] Hk2. destruct (is_fresh (dom (heap st))). by apply (Hin k2).
        -- intros Hk1 [= <-]. destruct (is_fresh (dom (heap st))). by apply (Hin k1).
        -- apply Hinj.
      * intros k l. rewrite lookup_insert. case_decide; [by intros [= <-]|].
        intros Hk. apply elem_of_dom, Hdom, (Hin k l Hk).
  - destruct (UpdateStorage_values now st storage)
      as [Hdom [->|(old & [->|(new & l0 & Hl0 & [->|[_ ->]])])]].
    + split; [done|]. intros k l Hk. apply elem_of_dom, Hdom, (Hin k l Hk).
    + split.
      * intros k1 k2 l [_ H1]%lookup_delete_Some [_ H2]%lookup_delete_Some.
        by apply (Hinj k1 k2 l).
      * intros k l [_ Hk]%lookup_delete_Some. apply elem_of_dom, Hdom, (Hin k l Hk).
    + split.
      * intros k1 k2 l. rewrite !lookup_insert. repeat case_decide; subst; try done.
        -- intros [= <-] [Hne H2]%lookup_delete_Some.
           destruct Hne. by apply (Hinj old k2 l0).
        -- intros [Hne H1]%lookup_delete_Some [= <-].
           destruct Hne. by apply (Hinj old k1 l0).
        -- intros [_ H1]%lookup_delete_Some [_ H2]%lookup_delete_Some.
           by apply (Hinj k1 k2 l).
      * intros k l. rewrite lookup_insert. case_decide.
        -- intros [= <-]. apply elem_of_dom, Hdom, (Hin old l0 Hl0).
        -- intros [_ Hk]%lookup_delete_Some. apply elem_of_dom, Hdom, (Hin k l Hk).
    + split; [done|]. intros k l Hk. apply elem_of_dom, Hdom, (Hin k l Hk).
  - destruct (DeleteStorageById_values st id) as [Hdom [->|(old & ->)]].
    + split; [done|]. intros k l Hk. apply elem_of_dom, Hdom, (Hin k l Hk).
    + split.
      * intros k1 k2 l [_ H1]%lookup_delete_Some [_ H2]%lookup_delete_Some.
        by apply (Hinj k1 k2 l).
      * intros k l [_ Hk]%lookup_delete_Some. apply elem_of_dom, Hdom, (Hin k l Hk).
  - destruct (GetBalancedStorage_frame es st path) as (-> & -> & _). done.
Qed.

Lemma reaches_registry_wf st st' :
  reaches st st' ->
  registry_wf (storagesMap st) (heap st) ->
  registry_wf (storagesMap st') (heap st').
Proof.
  induction 1 as [st|st st1 st2 Hstep _ IH]; [done|].
  intros Hwf. by apply IH, (step_registry_wf st).
Qed.

(** C4. After a successful [DeleteStorageById], looking up the old mount
    path fails with the not-found error; and in every state a run
    reaches from there, the deleted driver is in no result of
    [getStoragesByPath], and every entry [GetStorageVirtualFilesByPath]
    lists is made from a registered driver other than the deleted
    one. *)
Theorem DeleteStorageById_removes_driver st (id : N) st' :
  SortContract sorter ->
  registry_wf (storagesMap st) (heap st) ->
  DeleteStorageById st id = (Returned None, st') ->
  exists storage l,
    db.GetStorageById (database st) id = inr storage /\
    GetStorageByVirtualPath st (MountPath storage) = inr l /\
    GetStorageByVirtualPath st' (MountPath storage)
    = inl (notFound (MountPath storage)) /\
    forall st'', reaches st' st'' ->
      (forall es path, RangeOf (storagesMap st'') es ->
                       l ∉ getStoragesByPath (heap st'') es path) /\
      (forall vs prefix f,
         ValuesOf (storagesMap st'') vs ->
         f ∈ GetStorageVirtualFilesByPath (heap st'') vs prefix ->
         exists v, v ∈ vs /\ v <> l /\
                   contributes (heap st'') (dirPrefix prefix) v = true /\
                   f = entryOf (heap st'') (dirPrefix prefix) v).
Proof.
  intros sort_ok [Hinj _] Hrun.
  destruct (DeleteStorageById_ok st id st' Hrun)
    as (storage & l & d & d' & db' & Hrow & Hl & Hd & _ & _ & ->).
  exists storage, l. split_and!; [done|by apply GetStorageByVirtualPath_Some| |].
  - apply GetStorageByVirtualPath_None. simpl. by rewrite lookup_delete_eq.
  - intros st'' Hreach.
    assert (retired l (storagesMap st'') (heap st'')) as [_ Hgone].
    { apply (reaches_retired l _ _ Hreach). simpl. split.
      - rewrite dom_insert_L. set_solver.
      - intros k [Hne Hk]%lookup_delete_Some. destruct Hne.
        by apply (Hinj (MountPath storage) k l). }
    assert (forall v, v ∈ (map_to_list (storagesMap st'')).*2 -> v <> l) as Hother.
    { intros v Hv ->.
      apply (RangeOf_values (storagesMap st'') (map_to_list (storagesMap st''))) in Hv as [k Hk];
        [by apply (Hgone k)|unfold RangeOf; reflexivity]. }
    split.
    + intros es path Hes Hin.
      rewrite (getStoragesByPath_registry (heap st'') sort_ok _ es path Hes) in Hin.
      apply list_elem_of_filter in Hin as [_ Hin]. by apply (Hother l).
    + intros vs prefix f Hvs Hf.
      destruct (virtual_files_spec sort_ok (heap st'') vs prefix) as (_ & _ & Hfrom).
      destruct (Hfrom f Hf) as (v & Hv & Hc & -> & _).
      exists v. split_and!; [done| |done..].
      apply Hother. by rewrite <- Hvs.
Qed.

End Runs.

(** * The properties at work on the in-memory backend *)

Lemma Mem_InitBinds : @InitBinds Mem.Drv Mem.driver.
Proof.
  intros d d' s. simpl. destruct (String.eqb (Addition s) "unreachable"); [done|].
  by intros [= <-].
Qed.

Lemma mount_all_reaches (sorter : SliceSorter) (configs : list Storage) (now : Time)
    (st : State Mem.Drv Mem.DB) :
  reaches st (Mem.mount_all now st configs).
Proof.
  revert now st. induction configs as [|c configs IH]; intros now st; simpl.
  - apply rtc_refl.
  - eapply rtc_l; [apply step_create|apply IH].
Qed.

Lemma five_registry_wf : registry_wf (storagesMap Mem.five) (heap Mem.five).
Proof.
  apply (reaches_registry_wf (sorter:=insertion) Mem.boot).
  - apply mount_all_reaches.
  - split; simpl; [intros k1 k2 l H|intros k l H]; by rewrite lookup_empty in H.
Qed.

Lemma five_entries : RangeOf (storagesMap Mem.five) (Mem.entries Mem.five).
Proof. unfold RangeOf, Mem.entries. reflexivity. Qed.

Lemma five_entries_reversed :
  RangeOf (storagesMap Mem.five) (reverse (Mem.entries Mem.five)).
Proof. unfold RangeOf, Mem.entries. apply reverse_Permutation. Qed.

Lemma five_distinct_mounts :
  distinct_mounts (heap Mem.five) (map_to_list (storagesMap Mem.five)).*2.
Proof. unfold distinct_mounts. apply (bool_decide_unpack _). by vm_compute. Qed.

Lemma getStoragesByPath_deepest_prefix_match_witness :
  RangeOf (storagesMap Mem.five) (Mem.entries Mem.five) /\
  forall l,
    l ∈ getStoragesByPath (sorter:=insertion) (heap Mem.five) (Mem.entries Mem.five) "/a/b/x" <->
    (exists k, storagesMap Mem.five !! k = Some l) /\
    candidate (heap Mem.five) "/a/b/x" l = true /\
    (forall k' l', storagesMap Mem.five !! k' = Some l' ->
                   candidate (heap Mem.five) "/a/b/x" l' = true ->
                   depth (heap Mem.five) l' <= depth (heap Mem.five) l).
Proof.
  split; [exact five_entries|].
  exact (proj2 (getStoragesByPath_deepest_prefix_match (heap Mem.five) insertion_contract
                  (storagesMap Mem.five) (Mem.entries Mem.five) "/a/b/x" five_entries)).
Defined.



Lemma five_values : (Mem.entries Mem.five).*2 ≡ₚ [0; 1; 2; 3; 4]%nat.
Proof.
  assert ((Mem.entries Mem.five).*2 = [1; 3; 0; 2; 4]%nat) as -> by (by vm_compute).
  apply NoDup_Permutation.
  - apply (bool_decide_unpack _). by vm_compute.
  - apply (bool_decide_unpack _). by vm_compute.
  - intros x. rewrite !elem_of_cons, !elem_of_nil. tauto.
Qed.

Lemma stale_cursors_ok : cursors_ok (balanceMap Mem.stale).
Proof.
  intros k cur. simpl. intros [_ <-]%lookup_singleton_Some.
  unfold max_int. lia.
Qed.

Lemma GetBalancedStorage_returns_group_member_witness :
  cursors_ok (balanceMap Mem.stale) /\
  Mem.stale.(balanceMap) !! "/a/b" = Some 7 /\
  exists chosen,
    chosen ∈ getStoragesByPath (sorter:=insertion) (heap Mem.stale)
               (Mem.entries Mem.five) (utils.StandardizePath "/a/b/x") /\
    (GetBalancedStorage (sorter:=insertion) (Mem.entries Mem.five) Mem.stale "/a/b/x").1
    = Returned (Some chosen).
Proof.
  split; [exact stale_cursors_ok|]. split; [by vm_compute|].
  destruct (GetBalancedStorage_returns_group_member (sorter:=insertion)
              (Mem.entries Mem.five) Mem.stale "/a/b/x")
    as (_ & i & chosen & _ & _ & _ & Hin & Hcall).
  - vm_compute. lia.
  - exact stale_cursors_ok.
  - exists chosen. split; [exact Hin|]. by rewrite Hcall.
Defined.

Lemma balanced_calls_round_robin_witness :
  (balanced_calls (sorter:=insertion)
     [Mem.entries Mem.five; reverse (Mem.entries Mem.five); Mem.entries Mem.five]
     Mem.five "/a/b/x").1
  = [Returned (Some 0%nat); Returned (Some 3%nat); Returned (Some 0%nat)].
Proof.
  etransitivity.
  - apply (balanced_calls_round_robin insertion_contract
             (getStoragesByPath (sorter:=insertion) (heap Mem.five)
                (map_to_list (storagesMap Mem.five)) (utils.StandardizePath "/a/b/x"))
             [Mem.entries Mem.five; reverse (Mem.entries Mem.five); Mem.entries Mem.five]
             Mem.five "/a/b/x").
    + apply Forall_cons_2; [exact five_entries|].
      apply Forall_cons_2; [exact five_entries_reversed|].
      apply Forall_cons_2; [exact five_entries|apply Forall_nil_2].
    + exact five_distinct_mounts.
    + exact eq_refl.
    + vm_compute. lia.
    + unfold max_int. vm_compute. discriminate.
    + by vm_compute.
  - by vm_compute.
Defined.

(** C2 as stated fails.  On the balance group [/a/b], [/a/b.balance1]
    with no cursor yet, the first call selects index 0 and the second
    call index 1: the first two calls do not both return index 0. *)
Lemma second_balanced_call_advances :
  let es := Mem.entries Mem.five in
  let storages := getStoragesByPath (sorter:=insertion) (heap Mem.five) es
                    (utils.StandardizePath "/a/b/x") in
  length storages = 2%nat /\
  balanceMap Mem.five !! groupKey (heap Mem.five) storages = None /\
  (balanced_calls (sorter:=insertion) [es; es; es] Mem.five "/a/b/x").1
  = [Returned (storages !! 0%nat); Returned (storages !! 1%nat);
     Returned (storages !! 0%nat)] /\
  (balanced_calls (sorter:=insertion) [es; es] Mem.five "/a/b/x").1
  <> [Returned (storages !! 0%nat); Returned (storages !! 0%nat)].
Proof. vm_compute. split_and!; try reflexivity. discriminate. Qed.

Lemma virtual_files_of_five_mounts_witness :
  (Mem.entries Mem.five).*2 ≡ₚ [0; 1; 2; 3; 4]%nat /\
  GetStorageVirtualFilesByPath (sorter:=insertion) (heap Mem.five)
    (Mem.entries Mem.five).*2 "/a"
  ≡ₚ [Object.mk "b" 0 (Modified (storageOf (heap Mem.five) 0%nat)) true;
      Object.mk "c" 0 (Modified (storageOf (heap Mem.five) 1%nat)) true;
      Object.mk "d" 0 (Modified (storageOf (heap Mem.five) 2%nat)) true].
Proof.
  split; [exact five_values|].
  refine (proj2 (virtual_files_of_five_mounts (sorter:=insertion) insertion_contract
                   (heap Mem.five) 0%nat 1%nat 2%nat 3%nat 4%nat
                   _ _ _ _ _ (Mem.entries Mem.five).*2 five_values));
    by vm_compute.
Defined.

(** C3 as stated fails.  With the five mounts registered, the listing of
    the root holds the folder [av] next to the folder [a]: the mount
    [/av] lies one segment below the root. *)
Lemma root_listing_includes_av :
  Object.Name <$> GetStorageVirtualFilesByPath (sorter:=insertion) (heap Mem.five)
                    (Mem.entries Mem.five).*2 "/"
  = ["a"; "av"] /\
  ~ (Object.Name <$> GetStorageVirtualFilesByPath (sorter:=insertion) (heap Mem.five)
                       (Mem.entries Mem.five).*2 "/"
     ≡ₚ ["a"]).
Proof.
  assert (Object.Name <$> GetStorageVirtualFilesByPath (sorter:=insertion) (heap Mem.five)
                            (Mem.entries Mem.five).*2 "/"
          = ["a"; "av"]) as -> by (by vm_compute).
  split; [done|]. intros Hp. apply Permutation_length in Hp. discriminate.
Qed.




Lemma DeleteStorageById_removes_driver_witness :
  registry_wf (storagesMap Mem.five) (heap Mem.five) /\
  (DeleteStorageById Mem.five 1).1 = Returned None /\
  exists storage l,
    db.GetStorageById (database Mem.five) 1 = inr storage /\
    GetStorageByVirtualPath Mem.five (MountPath storage) = inr l /\
    GetStorageByVirtualPath (DeleteStorageById Mem.five 1).2 (MountPath storage)
    = inl (notFound (MountPath storage)) /\
    l ∉ getStoragesByPath (sorter:=insertion) (heap (DeleteStorageById Mem.five 1).2)
          (Mem.entries (DeleteStorageById Mem.five 1).2) "/a/b/x".
Proof.
  split; [exact five_registry_wf|]. split; [by vm_compute|].
  destruct (DeleteStorageById_removes_driver (sorter:=insertion) Mem.five 1
              (DeleteStorageById Mem.five 1).2 insertion_contract five_registry_wf)
    as (storage & l & Hrow & Hl & Hgone & Hlater); [by vm_compute|].
  exists storage, l. split_and!; [exact Hrow|exact Hl|exact Hgone|].
  destruct (Hlater (DeleteStorageById Mem.five 1).2 (rtc_refl _ _)) as [Habsent _].
  apply Habsent. unfold RangeOf, Mem.entries. reflexivity.
Defined.

Lemma UpdateStorage_driver_immutable_witness :
  db.GetStorageById (database Mem.five) 1 = inr (mkStorage 1 "/a/b" 0 "Local" "" 1) /\
  UpdateStorage 9 Mem.five (mkStorage 1 "/a/b" 0 "S3" "" 0)
  = (Returned (Some (Errorf "driver cannot be changed")), Mem.five).
Proof.
  assert (db.GetStorageById (database Mem.five) 1 = inr (mkStorage 1 "/a/b" 0 "Local" "" 1))
    as Hrow by (by vm_compute).
  split; [exact Hrow|].
  apply (UpdateStorage_driver_immutable 9 Mem.five (mkStorage 1 "/a/b" 0 "S3" "" 0)
           (mkStorage 1 "/a/b" 0 "Local" "" 1) Hrow).
  simpl. discriminate.
Defined.

Lemma UpdateStorage_rename_witness :
  let request := mkStorage 1 "/z/" 0 "Local" "" 0 in
  (UpdateStorage 9 Mem.five request).1 = Returned None /\
  exists l,
    GetStorageByVirtualPath Mem.five "/a/b" = inr l /\
    GetStorageByVirtualPath (UpdateStorage 9 Mem.five request).2
      (utils.StandardizePath "/z/") = inr l /\
    GetStorageByVirtualPath (UpdateStorage 9 Mem.five request).2 "/a/b"
    = inl (notFound "/a/b").
Proof.
  intros request. split; [by vm_compute|].
  destruct (UpdateStorage_rename 9 Mem.five request (mkStorage 1 "/a/b" 0 "Local" "" 1)
              (UpdateStorage 9 Mem.five request).2)
    as (l & d & d1 & d2 & storage' & Hl & _ & _ & _ & _ & _ & _ & Hnew & Hold).
  - by vm_compute.
  - by vm_compute.
  - vm_compute. discriminate.
  - exists l. split_and!; [exact Hl|exact Hnew|exact Hold].
Defined.

Lemma CreateStorage_then_lookup_witness :
  @InitBinds Mem.Drv Mem.driver /\
  (CreateStorage 1 Mem.boot (Mem.local "/a/b/" 0)).1 = Returned None /\
  exists l d,
    GetStorageByVirtualPath (CreateStorage 1 Mem.boot (Mem.local "/a/b/" 0)).2
      (utils.StandardizePath "/a/b/") = inr l /\
    heap (CreateStorage 1 Mem.boot (Mem.local "/a/b/" 0)).2 !! l = Some d /\
    ID (GetStorage d)
    = (gorm_Create (database Mem.boot) (stamped 1 (Mem.local "/a/b/" 0))).1.2.
Proof.
  split; [exact Mem_InitBinds|]. split; [by vm_compute|].
  destruct (CreateStorage_then_lookup 1 Mem.boot (Mem.local "/a/b/" 0)
              (CreateStorage 1 Mem.boot (Mem.local "/a/b/" 0)).2 Mem_InitBinds)
    as (l & d & Hl & Hd & _ & Hid); [by vm_compute|].
  exists l, d. split_and!; [exact Hl|exact Hd|exact Hid].
Defined.

Lemma DeleteStorageById_failure_keeps_registry_witness :
  ((DeleteStorageById Mem.stuck 1).1
   = Returned (Some (WithMessage (Foreign "resource busy") "failed drop storage")) /\
   storagesMap (DeleteStorageById Mem.stuck 1).2 = storagesMap Mem.stuck /\
   GetStorageByVirtualPath (DeleteStorageById Mem.stuck 1).2 "/x"
   = GetStorageByVirtualPath Mem.stuck "/x") /\
  ((DeleteStorageById Mem.frozen 1).1
   = Returned (Some (WithMessage
                       (WithStack (Foreign "attempt to write a readonly database"))
                       "failed delete storage in database")) /\
   storagesMap (DeleteStorageById Mem.frozen 1).2 = storagesMap Mem.frozen /\
   GetStorageByVirtualPath (DeleteStorageById Mem.frozen 1).2 "/a/b"
   = GetStorageByVirtualPath Mem.frozen "/a/b").
Proof.
  split.
  - destruct (DeleteStorageById_failure_keeps_registry Mem.stuck 1)
      as (_ & _ & Hdrop & _ & Hkeep).
    assert ((DeleteStorageById Mem.stuck 1).1
            = Returned (Some (WithMessage (Foreign "resource busy") "failed drop storage")))
      as Hfail.
    { apply (Hdrop (mkStorage 1 "/x" 0 "Local" "busy" 1) 0%nat
               (Mem.mkDrv (mkStorage 1 "/x" 0 "Local" "busy" 1) true)
               (Mem.mkDrv (mkStorage 1 "/x" 0 "Local" "busy" 1) true)
               (Foreign "resource busy")); by vm_compute. }
    split; [exact Hfail|].
    destruct Hkeep as [Hmap Hlookup]; [rewrite Hfail; discriminate|].
    split; [exact Hmap|apply Hlookup].
  - destruct (DeleteStorageById_failure_keeps_registry Mem.frozen 1)
      as (_ & _ & _ & Hdel & Hkeep).
    assert ((DeleteStorageById Mem.frozen 1).1
            = Returned (Some (WithMessage
                                (WithStack (Foreign "attempt to write a readonly database"))
                                "failed delete storage in database")))
      as Hfail.
    { apply (Hdel (mkStorage 1 "/a/b" 0 "Local" "" 1) 0%nat
               (Mem.mkDrv (mkStorage 1 "/a/b" 0 "Local" "" 1) true)
               (Mem.mkDrv (mkStorage 1 "/a/b" 0 "Local" "" 1) false)
               (database Mem.frozen)
               (WithStack (Foreign "attempt to write a readonly database")));
        by vm_compute. }
    split; [exact Hfail|].
    destruct Hkeep as [Hmap Hlookup]; [rewrite Hfail; discriminate|].
    split; [exact Hmap|apply Hlookup].
Defined.

(** A cursor below zero would take the selection out of range, Go's [%]
    keeping the sign of the dividend; no call stores such a cursor
    ([GetBalancedStorage_cursors_ok]). *)
Lemma negative_cursor_panics :
  (GetBalancedStorage (sorter:=insertion) (Mem.entries Mem.five)
     (mkState (storagesMap Mem.five) {[ "/a/b" := -2 ]} (heap Mem.five)
        (database Mem.five))
     "/a/b/x").1
  = Panicked.
Proof. by vm_compute. Qed.

(** * Further properties of the routing and lifecycle code *)

(** ** Byte strings *)

Lemma append_cons (c : ascii) (a b : string) : String c a +:+ b = String c (a +:+ b).
Proof. reflexivity. Qed.

Lemma append_nil_l (a : string) : "" +:+ a = a.
Proof. reflexivity. Qed.

Lemma HasPrefix_app (s prefix : string) :
  Strings.HasPrefix s prefix = true <-> exists rest, s = prefix +:+ rest.
Proof.
  revert s. induction prefix as [|c prefix IH]; intros s.
  - destruct s; simpl; (split; [intros _; by eexists|done]).
  - destruct s as [|d s]; simpl.
    + split; [done|]. by intros [rest ?].
    + destruct (Ascii.eqb_spec c d) as [->|Hne].
      * rewrite IH. split; intros [rest Hrest]; exists rest;
          rewrite append_cons in *; congruence.
      * split; [done|]. intros [rest Hrest]. rewrite append_cons in Hrest. congruence.
Qed.

Lemma Count_app (a b : string) (sep : ascii) :
  Strings.Count (a +:+ b) sep = Strings.Count a sep + Strings.Count b sep.
Proof.
  induction a as [|c a IH]; [done|].
  rewrite append_cons. simpl. rewrite IH. lia.
Qed.

Lemma append_nil_r (a : string) : a +:+ "" = a.
Proof. induction a as [|c a IH]; [done|]. by rewrite append_cons, IH. Qed.

Lemma append_assoc (a b c : string) : (a +:+ b) +:+ c = a +:+ (b +:+ c).
Proof. induction a as [|x a IH]; [done|]. by rewrite !append_cons, IH. Qed.

Lemma length_append (a b : string) :
  String.length (a +:+ b) = (String.length a + String.length b)%nat.
Proof. induction a as [|x a IH]; [done|]. rewrite append_cons. simpl. by rewrite IH. Qed.

(** Two ways of cutting the same string: the shorter head is a head of
    the longer one. *)
Lemma append_eq_split (a b c d : string) :
  a +:+ b = c +:+ d ->
  (String.length a <= String.length c)%nat ->
  exists u, c = a +:+ u /\ b = u +:+ d.
Proof.
  revert c. induction a as [|x a IH]; intros c Heq Hlen.
  - by exists c.
  - destruct c as [|y c]; simpl in Hlen; [lia|].
    rewrite !append_cons in Heq. injection Heq as -> Heq.
    destruct (IH c Heq) as (u & -> & ->); [lia|]. by exists u.
Qed.

Lemma under_spec (virtualPath path : string) :
  String.eqb path virtualPath || Strings.HasPrefix path (virtualPath +:+ "/") = true
  <-> under virtualPath path.
Proof.
  rewrite orb_true_iff, String.eqb_eq, HasPrefix_app. split.
  - intros [->|[rest ->]].
    + exists "". rewrite append_nil_r. auto.
    + exists ("/" +:+ rest). rewrite <- append_assoc. eauto.
  - intros (rest & -> & [->|[rest' ->]]).
    + left. apply append_nil_r.
    + right. exists rest'. by rewrite <- append_assoc.
Qed.

Lemma under_Count (virtualPath path : string) :
  under virtualPath path -> Strings.Count virtualPath "/" <= Strings.Count path "/".
Proof.
  intros (rest & -> & _). rewrite Count_app.
  pose proof (Count_nonneg rest "/"). lia.
Qed.

(** Of two mount points a path lies under, the longer one has more
    slashes. *)
Lemma under_longer_deeper (v1 v2 path : string) :
  under v1 path -> under v2 path ->
  (String.length v1 < String.length v2)%nat ->
  Strings.Count v1 "/" < Strings.Count v2 "/".
Proof.
  intros (r1 & Hp1 & Hr1) (r2 & Hp2 & _) Hlen. subst path.
  destruct (append_eq_split v1 r1 v2 r2 Hp2) as (u & -> & ->); [lia|].
  rewrite Count_app. rewrite length_append in Hlen.
  destruct u as [|c u]; [simpl in Hlen; lia|].
  destruct Hr1 as [Hr1|[rest' Hr1]]; rewrite append_cons in Hr1; [done|].
  injection Hr1 as -> _. simpl.
  pose proof (Count_nonneg u "/"). lia.
Qed.

Lemma under_same_depth (v1 v2 path : string) :
  under v1 path -> under v2 path ->
  Strings.Count v1 "/" = Strings.Count v2 "/" ->
  v1 = v2.
Proof.
  intros H1 H2 Hcount.
  destruct (Nat.lt_trichotomy (String.length v1) (String.length v2)) as [Hlt|[Heq|Hgt]].
  - pose proof (under_longer_deeper v1 v2 path H1 H2 Hlt). lia.
  - destruct H1 as (r1 & Hp1 & _), H2 as (r2 & Hp2 & _). subst path.
    destruct (append_eq_split v1 r1 v2 r2 Hp2) as (u & -> & _); [lia|].
    rewrite length_append in Heq.
    destruct u as [|c u]; [by rewrite append_nil_r|simpl in Heq; lia].
  - pose proof (under_longer_deeper v2 v1 path H2 H1 Hgt). lia.
Qed.

(** ** More on the mount resolver *)

Section ResolverMore.
Context {Drv : Type} `{!DriverOps Drv} {sorter : SliceSorter}.
Hypothesis sort_ok : SortContract sorter.
Variable h : gmap loc Drv.

Lemma candidate_under (path : string) (l : loc) :
  candidate h path l = true <-> under (matchPath h l) path.
Proof. unfold candidate. apply under_spec. Qed.

(** The drivers [getStoragesByPath] returns form one group: they all
    have the same match path, and the path asked for is that match path
    or lies under it. *)
Theorem getStoragesByPath_single_group (es : list (string * loc)) (path : string)
    (l1 l2 : loc) :
  l1 ∈ getStoragesByPath h es path ->
  l2 ∈ getStoragesByPath h es path ->
  matchPath h l1 = matchPath h l2 /\ under (matchPath h l1) path.
Proof.
  rewrite !(getStoragesByPath_perm h sort_ok es path), !list_elem_of_filter, !deepest_spec.
  intros [[Hc1 Hmax1] Hin1] [[Hc2 Hmax2] Hin2].
  apply candidate_under in Hc1 as Hu1. apply candidate_under in Hc2 as Hu2.
  split; [|done].
  apply (under_same_depth _ _ path Hu1 Hu2).
  pose proof (Hmax1 l2 Hin2 Hc2). pose proof (Hmax2 l1 Hin1 Hc1).
  unfold depth in *. lia.
Qed.

(** [getStoragesByPath] comes back empty exactly when no visited driver
    is a candidate for the path: a path under some mount always
    resolves. *)
Theorem getStoragesByPath_empty_iff (es : list (string * loc)) (path : string) :
  getStoragesByPath h es path = [] <->
  forall l, l ∈ es.*2 -> candidate h path l = false.
Proof.
  assert (getStoragesByPath h es path ≡ₚ (fold_left (visit h path) es ([], 0)).1) as Hperm.
  { unfold getStoragesByPath.
    destruct (fold_left (visit h path) es ([], 0)) as [storages cur]. apply sort_ok. }
  destruct (visit_fold h path es) as (Hc & Hle & Hatt & Hss).
  split.
  - intros Hnil l Hl. destruct (candidate h path l) eqn:Hcand; [|done].
    rewrite Hnil in Hperm. symmetry in Hperm. apply Permutation_nil_r in Hperm.
    rewrite Hperm in Hss. symmetry in Hss.
    destruct Hatt as [H0|(l' & Hl' & Hc' & Hd')].
    + destruct (filter_nil_not_elem_of _ _ l Hss); [|done].
      split; [done|]. pose proof (Hle l Hl Hcand). pose proof (depth_nonneg h l). lia.
    + by destruct (filter_nil_not_elem_of _ _ l' Hss).
  - intros Hnone. apply Permutation_nil_r. rewrite Hperm, Hss. symmetry.
    rewrite filter_none; [done|]. intros l Hl [Hcand _]. by rewrite (Hnone l Hl) in Hcand.
Qed.

(** A registered driver is always among the drivers resolved for its
    own match path: no other mount lies deeper on that path. *)
Theorem getStoragesByPath_own_path (m : gmap string loc) (es : list (string * loc))
    (k : string) (l : loc) :
  RangeOf m es ->
  m !! k = Some l ->
  l ∈ getStoragesByPath h es (matchPath h l).
Proof.
  intros Hes Hk.
  rewrite (getStoragesByPath_perm h sort_ok), list_elem_of_filter, deepest_spec.
  assert (candidate h (matchPath h l) l = true) as Hown.
  { unfold candidate. by rewrite String.eqb_refl. }
  split_and!; [done| |apply (RangeOf_values m es l Hes); by exists k].
  intros l' _ Hc'. apply candidate_under, under_Count in Hc'. done.
Qed.

(** When the registry maps distinct mount paths to distinct drivers, no
    driver is returned twice. *)
Theorem getStoragesByPath_NoDup (m : gmap string loc) (es : list (string * loc))
    (path : string) :
  RangeOf m es ->
  (forall k1 k2 l, m !! k1 = Some l -> m !! k2 = Some l -> k1 = k2) ->
  NoDup (getStoragesByPath h es path).
Proof.
  intros Hes Hinj.
  rewrite (getStoragesByPath_registry h sort_ok m es path Hes).
  apply NoDup_filter, NoDup_fmap_2_strong; [|apply NoDup_map_to_list].
  intros [k1 v1] [k2 v2] H1%elem_of_map_to_list H2%elem_of_map_to_list Hv.
  simpl in Hv. subst v2. by rewrite (Hinj k1 k2 v1 H1 H2).
Qed.

End ResolverMore.

(** ** More on the balancer *)

Lemma rotation_Permutation (n : nat) (a : Z) :
  0 <= a ->
  (fun j : nat => Z.to_nat ((a + Z.of_nat j) mod Z.of_nat n)) <$> seq 0 n ≡ₚ seq 0 n.
Proof.
  intros Ha. destruct n as [|n']; [done|]. set (n := S n').
  assert (0 < Z.of_nat n) as Hn by lia.
  apply submseteq_length_Permutation; [|by rewrite length_fmap].
  apply NoDup_submseteq.
  - apply NoDup_fmap_2_strong; [|apply NoDup_seq].
    intros j1 j2 [_ H1]%elem_of_seq [_ H2]%elem_of_seq Heq.
    apply Z2Nat.inj in Heq; [|apply Z.mod_pos_bound; lia..].
    assert ((Z.of_nat j1 - Z.of_nat j2) mod Z.of_nat n = 0) as Hdiv.
    { replace (Z.of_nat j1 - Z.of_nat j2)
        with ((a + Z.of_nat j1) - (a + Z.of_nat j2)) by lia.
      rewrite Zminus_mod, Heq, Z.sub_diag. apply Z.mod_0_l. lia. }
    apply Z.mod_divide in Hdiv as [q Hq]; [|lia].
    assert (0 <= Z.of_nat j1 < Z.of_nat n /\ 0 <= Z.of_nat j2 < Z.of_nat n) as Hb by lia.
    assert (q = 0) as -> by nia. lia.
  - intros x (j & -> & _)%list_elem_of_fmap. apply elem_of_seq.
    pose proof (Z.mod_pos_bound (a + Z.of_nat j) (Z.of_nat n) Hn). lia.
Qed.

Lemma lookup_all {A : Type} (l : list A) :
  (fun i : nat => l !! i) <$> seq 0 (length l) = Some <$> l.
Proof.
  induction l as [|x l IH]; [done|]. simpl. f_equal.
  rewrite <- fmap_S_seq, <- list_fmap_compose. exact IH.
Qed.

Section BalancerMore.
Context {Drv DB : Type} `{!DriverOps Drv} `{!Gorm DB} {sorter : SliceSorter}.
Implicit Types (st : State Drv DB) (es : list (string * loc)).

(** On no match and on a single match the state is left alone. *)
Lemma GetBalancedStorage_small es st path :
  (length (getStoragesByPath (heap st) es (utils.StandardizePath path)) < 2)%nat ->
  GetBalancedStorage es st path
  = (Returned (head (getStoragesByPath (heap st) es (utils.StandardizePath path))), st).
Proof.
  unfold GetBalancedStorage.
  destruct (getStoragesByPath (heap st) es (utils.StandardizePath path))
    as [|x [|y rest]]; simpl; [done..|lia].
Qed.

(** [GetBalancedStorage] writes nothing but the cursor of the group it
    resolved: the registry, the driver objects, the database and every
    other cursor are as before. *)
Theorem GetBalancedStorage_touches_one_cursor es st path :
  let st' := (GetBalancedStorage es st path).2 in
  let key := groupKey (heap st)
               (getStoragesByPath (heap st) es (utils.StandardizePath path)) in
  storagesMap st' = storagesMap st /\
  heap st' = heap st /\
  database st' = database st /\
  forall k, k <> key -> balanceMap st' !! k = balanceMap st !! k.
Proof.
  intros st' key. subst st'.
  destruct (decide (2 <= length (getStoragesByPath (heap st) es
                                   (utils.StandardizePath path)))%nat) as [Hn|Hn].
  - rewrite (GetBalancedStorage_group es st path Hn). simpl.
    split_and!; [done..|]. intros k Hk. by rewrite lookup_insert_ne.
  - rewrite GetBalancedStorage_small by lia. done.
Qed.

End BalancerMore.

Section Fairness.
Context {Drv DB : Type} `{!DriverOps Drv} `{!Gorm DB} {sorter : SliceSorter}.
Hypothesis sort_ok : SortContract sorter.
Implicit Types (st : State Drv DB) (es : list (string * loc)).

(** The rotation from whatever the cursor map holds for the group: the
    [j]-th call selects index [(a + j) mod N], where [a] is 0 without a
    cursor and the cursor plus one otherwise. *)
Lemma balanced_calls_from_state
    (storages : list loc) (ess : list (list (string * loc))) st path :
  Forall (RangeOf (storagesMap st)) ess ->
  distinct_mounts (heap st) (map_to_list (storagesMap st)).*2 ->
  storages = getStoragesByPath (heap st) (map_to_list (storagesMap st))
               (utils.StandardizePath path) ->
  (2 <= length storages)%nat ->
  Z.of_nat (length storages) <= max_int ->
  cursors_ok (balanceMap st) ->
  let a := match balanceMap st !! groupKey (heap st) storages with
           | Some cur => cur + 1
           | None => 0
           end in
  0 <= a /\
  (balanced_calls ess st path).1
  = (fun j : nat => Returned (storages !! Z.to_nat
                        ((a + Z.of_nat j) mod Z.of_nat (length storages))))
      <$> seq 0 (length ess).
Proof.
  intros Hess Hnd Hs Hn Hmax Hcur a.
  assert (0 <= a) as Ha.
  { subst a. destruct (balanceMap st !! _) as [c|] eqn:Hc; [|lia].
    pose proof (Hcur _ _ Hc). lia. }
  split; [done|].
  destruct ess as [|es ess]; [done|].
  apply Forall_cons in Hess as [Hes Hess].
  assert (getStoragesByPath (heap st) es (utils.StandardizePath path) = storages) as Hsame.
  { rewrite Hs.
    apply (getStoragesByPath_order_irrelevant _ _ sort_ok sort_ok _ (storagesMap st));
      [done|unfold RangeOf; reflexivity|done]. }
  simpl.
  pose proof (GetBalancedStorage_group es st path) as Hcall.
  cbv zeta in Hcall. rewrite Hsame in Hcall. specialize (Hcall Hn).
  rewrite Hcall. clear Hcall.
  destruct (nextIndex_in_range (balanceMap st !! groupKey (heap st) storages)
              (Z.of_nat (length storages))) as [Hi Hr];
    [lia|intros cur Hk; by apply (Hcur _ _ Hk)|].
  assert (nextIndex (balanceMap st !! groupKey (heap st) storages)
            (Z.of_nat (length storages))
          = a mod Z.of_nat (length storages)) as Hidx.
  { rewrite Hi. subst a. destruct (balanceMap st !! _); [done|].
    symmetry. apply Z.mod_0_l. lia. }
  rewrite Hidx in *. clear Hi Hidx.
  destruct (index_in_range storages _ Hr) as (chosen & Hlook & ->).
  set (st' := setBalanceMap _ st).
  pose proof (balanced_calls_from_cursor sort_ok storages ess st' path
                (a mod Z.of_nat (length storages))) as Hrest.
  destruct (balanced_calls ess st' path) as [rs st'']. simpl in Hrest |- *.
  rewrite Hrest; [|done|done|done|done|done|by apply lookup_insert_eq|done].
  f_equal.
  - by rewrite Z.add_0_r, Hlook.
  - rewrite <- fmap_S_seq, <- list_fmap_compose.
    apply list_fmap_ext. intros _ j _. simpl. do 3 f_equal.
    replace (a mod Z.of_nat (length storages) + 1 + Z.of_nat j)
      with (a mod Z.of_nat (length storages) + (1 + Z.of_nat j)) by lia.
    rewrite Zplus_mod_idemp_l. f_equal. lia.
Qed.

(** The registered drivers exposing distinct mount paths: whatever the
    cursors hold, any [N] consecutive balanced selections on a group of
    [N] drivers, with nothing else touching the registry or the
    cursors, select every member of the group exactly once, whatever
    the order in which [Range] visits the registry at each call. *)
Theorem balanced_calls_fair_window
    (storages : list loc) (ess : list (list (string * loc))) st path :
  Forall (RangeOf (storagesMap st)) ess ->
  distinct_mounts (heap st) (map_to_list (storagesMap st)).*2 ->
  storages = getStoragesByPath (heap st) (map_to_list (storagesMap st))
               (utils.StandardizePath path) ->
  (2 <= length storages)%nat ->
  Z.of_nat (length storages) <= max_int ->
  cursors_ok (balanceMap st) ->
  length ess = length storages ->
  (balanced_calls ess st path).1 ≡ₚ (fun d => Returned (Some d)) <$> storages.
Proof.
  intros Hess Hnd Hs Hn Hmax Hcur Hlen.
  destruct (balanced_calls_from_state storages ess st path Hess Hnd Hs Hn Hmax Hcur)
    as [Ha ->].
  rewrite Hlen.
  set (a := match balanceMap st !! groupKey (heap st) storages with
            | Some cur => cur + 1
            | None => 0
            end) in *.
  transitivity ((fun i : nat => Returned (storages !! i)) <$> seq 0 (length storages)).
  - rewrite <- (rotation_Permutation (length storages) a Ha) at 2.
    by rewrite <- list_fmap_compose.
  - replace ((fun d => Returned (Some d)) <$> storages)
      with (Returned <$> (Some <$> storages)) by (by rewrite <- list_fmap_compose).
    by rewrite <- lookup_all, <- list_fmap_compose.
Qed.

End Fairness.

(** ** More on the virtual directory synthesizer *)

Lemma Split_head (s : string) :
  exists rest,
    s = hd "" (Strings.Split s "/") +:+ rest /\
    (rest = "" \/ exists rest', rest = "/" +:+ rest') /\
    Strings.Count (hd "" (Strings.Split s "/")) "/" = 0.
Proof.
  induction s as [|c s IH]; simpl.
  - exists "". auto.
  - destruct (Ascii.eqb_spec c "/") as [->|Hne].
    + exists (String "/" s). simpl. split_and!; [done| |done]. right. by exists s.
    + destruct IH as (rest & Hs & Hrest & Hcount).
      destruct (Strings.Split s "/") as [|seg segs]; simpl in *.
      * exists s. split_and!; [done| |].
        -- rewrite append_nil_l in Hs. by subst rest.
        -- destruct (Ascii.eqb_spec c "/"); [done|]. done.
      * exists rest. rewrite append_cons. split_and!; [by rewrite <- Hs|done|].
        destruct (Ascii.eqb_spec c "/"); [done|]. done.
Qed.

Lemma drop_bytes_append (a b : string) : Strings.drop_bytes (String.length a) (a +:+ b) = b.
Proof. induction a as [|x a IH]; [done|]. rewrite append_cons. simpl. exact IH. Qed.

Lemma TrimPrefix_append (s prefix : string) :
  Strings.HasPrefix s prefix = true -> s = prefix +:+ Strings.TrimPrefix s prefix.
Proof.
  intros H. unfold Strings.TrimPrefix. rewrite H.
  apply HasPrefix_app in H as [rest ->]. by rewrite drop_bytes_append.
Qed.

Section SynthesizerMore.
Context {Drv : Type} `{!DriverOps Drv}.

(** [GetStorageVirtualFilesByPath] in general: the names listed are
    pairwise distinct and are exactly the child names that the storages
    lying strictly under the prefix contribute, balance siblings apart;
    every entry has size 0, is a folder and carries the [Modified] of the
    storage that comes first by (Index, MountPath) among those
    contributing its name. *)
Theorem GetStorageVirtualFilesByPath_listing
    (sorter : SliceSorter) (h : gmap loc Drv) (vs : list loc) (prefix : string) :
  SortContract sorter ->
  let files := GetStorageVirtualFilesByPath h vs prefix in
  let p := dirPrefix prefix in
  NoDup (Object.Name <$> files) /\
  (forall n, n ∈ Object.Name <$> files <->
     exists v, v ∈ vs /\ contributes h p v = true /\ childName h p v = n) /\
  (forall f, f ∈ files ->
     Object.Size f = 0 /\ Object.IsFolder f = true /\
     exists v, v ∈ vs /\ contributes h p v = true /\
       Object.Name f = childName h p v /\
       Object.Modified f = Modified (storageOf h v) /\
       forall v', v' ∈ vs -> contributes h p v' = true ->
                  childName h p v' = Object.Name f ->
                  lessIndexMountPath h v' v = false).
Proof.
  intros sort_ok files p.
  destruct (virtual_files_spec sort_ok h vs prefix) as (Hnd & Hnames & Hfrom).
  split_and!; [done..|].
  intros f Hf. destruct (Hfrom f Hf) as (v & Hv & Hc & -> & Hmin).
  split_and!; [done..|]. exists v. by split_and!.
Qed.

(** Every folder listed under a prefix leads to a mount: its name has no
    slash in it, and some registered storage that is no balance sibling
    is mounted at the prefix extended by that name, or below it. *)
Theorem GetStorageVirtualFilesByPath_leads_to_mount
    (sorter : SliceSorter) (h : gmap loc Drv) (vs : list loc) (prefix : string)
    (f : Object.t) :
  SortContract sorter ->
  f ∈ GetStorageVirtualFilesByPath h vs prefix ->
  Strings.Count (Object.Name f) "/" = 0 /\
  exists v, v ∈ vs /\
    utils.IsBalance (MountPath (storageOf h v)) = false /\
    under (dirPrefix prefix +:+ Object.Name f) (MountPath (storageOf h v)).
Proof.
  intros sort_ok Hf.
  destruct (virtual_files_spec sort_ok h vs prefix) as (_ & _ & Hfrom).
  destruct (Hfrom f Hf) as (v & Hv & Hc & -> & _). simpl.
  unfold contributes in Hc. apply andb_true_iff in Hc as [Hc Hpre].
  apply andb_true_iff in Hc as [Hbal _]. apply negb_true_iff in Hbal.
  unfold childName.
  destruct (Split_head (Strings.TrimPrefix (MountPath (storageOf h v)) (dirPrefix prefix)))
    as (rest & Hsplit & Hrest & Hcount).
  split; [done|]. exists v. split_and!; [done..|].
  exists rest. split; [|done].
  rewrite append_assoc, <- Hsplit. by apply TrimPrefix_append.
Qed.

(** With distinct mount paths the listing does not depend on the order
    in which [Values] hands out the drivers, nor on how [sort.Slice]
    treats that order. *)
Theorem GetStorageVirtualFilesByPath_deterministic
    (sorter sorter' : SliceSorter) (h : gmap loc Drv) (vs vs' : list loc)
    (prefix : string) :
  SortContract sorter -> SortContract sorter' ->
  vs ≡ₚ vs' ->
  distinct_mounts h vs ->
  GetStorageVirtualFilesByPath (sorter:=sorter) h vs prefix
  = GetStorageVirtualFilesByPath (sorter:=sorter') h vs' prefix.
Proof.
  intros sort_ok sort_ok' Hperm Hnd. unfold GetStorageVirtualFilesByPath.
  assert (@sort_Slice sorter _ (lessIndexMountPath h) vs
          = @sort_Slice sorter' _ (lessIndexMountPath h) vs') as ->; [|done].
  destruct (sort_ok loc (lessIndexMountPath h) vs) as [Hp Hs].
  destruct (sort_ok' loc (lessIndexMountPath h) vs') as [Hp' Hs'].
  apply (StronglySorted_unique_strong (fun a b => lessIndexMountPath h b a = false)).
  - intros a b Ha Hb Hba Hab.
    apply (NoDup_fmap_eq (fun l => MountPath (storageOf h l)) vs); [exact Hnd| | |].
    + by rewrite <- Hp.
    + by rewrite Hperm, <- Hp'.
    + unfold lessIndexMountPath in Hba, Hab.
      rewrite (Z.eqb_sym (Index (storageOf h a))) in Hab.
      destruct (Index (storageOf h b) =? Index (storageOf h a)) eqn:Heq.
      * by apply ltb_total.
      * apply Z.eqb_neq in Heq. apply Z.ltb_ge in Hba, Hab. lia.
  - apply Hs, lessIndexMountPath_ok.
  - apply Hs', lessIndexMountPath_ok.
  - by rewrite Hp, Hp'.
Qed.

End SynthesizerMore.

(** ** More on the lifecycle manager *)

Section LifecycleMore.
Context {Drv DB : Type} `{!DriverOps Drv} `{!Gorm DB}.
Implicit Types (st : State Drv DB) (storage : Storage).

(** [CreateStorage] registers nothing unless it succeeds.  An unknown
    driver name is refused before anything is touched; a failing
    [Init] comes after the row has been written, and the row stays. *)
Theorem CreateStorage_failure (now : Time) st storage :
  let r := CreateStorage now st storage in
  (forall e, GetDriverNew (Driver storage) = inl e ->
     r = (Returned (Some (WithMessage e "failed get driver new")), st)) /\
  (forall fresh_driver db' storage' d' e,
     GetDriverNew (Driver storage) = inr fresh_driver ->
     db.CreateStorage (database st) (stamped now storage) = (db', storage', None) ->
     Init fresh_driver storage' = (d', Some e) ->
     r.1 = Returned (Some (WithMessage e
                             "failed init storage but storage is already created")) /\
     database r.2 = db') /\
  (r.1 <> Returned None ->
   storagesMap r.2 = storagesMap st /\ balanceMap r.2 = balanceMap st).
Proof.
  cbv zeta. unfold CreateStorage, callInit. simpl. fold (stamped now storage).
  split_and!.
  - by intros e ->.
  - intros d0 db' storage' d' e -> -> . simpl. rewrite lookup_insert_eq. by intros ->.
  - destruct (GetDriverNew (Driver storage)) as [e|d0]; [done|].
    destruct (db.CreateStorage _ _) as [[db' storage'] [e|]]; simpl; [done|].
    rewrite lookup_insert_eq. by destruct (Init d0 storage') as [d' [e|]].
Qed.

(** A successful [UpdateStorage] that keeps the mount path leaves the
    registry as it is: the same driver object stays under the same
    path, dropped and initialised again in place. *)
Theorem UpdateStorage_in_place (now : Time) st storage (oldStorage : Storage) st' :
  db.GetStorageById (database st) (ID storage) = inr oldStorage ->
  UpdateStorage now st storage = (Returned None, st') ->
  MountPath oldStorage = utils.StandardizePath (MountPath storage) ->
  storagesMap st' = storagesMap st /\
  exists l d d1 d2 storage',
    storagesMap st !! MountPath oldStorage = Some l /\
    heap st !! l = Some d /\
    Drop d = (d1, None) /\
    Init d1 storage' = (d2, None) /\
    heap st' !! l = Some d2.
Proof.
  intros Hold Hrun Hsame.
  destruct (UpdateStorage_ok now st storage st' Hrun)
    as (old' & db' & storage' & l & d & d1 & d2
        & Hold' & _ & _ & Hpath & Hl & Hd & Hdrop & Hinit & ->).
  rewrite Hold in Hold'. injection Hold' as <-.
  rewrite Hpath, decide_True by done. simpl. split.
  - rewrite <- Hsame. by apply insert_id.
  - exists l, d, d1, d2, storage'. split_and!; [done..|]. by rewrite lookup_insert_eq.
Qed.

(** A renaming [UpdateStorage] that fails after the row has been written
    has already given up the old mount path and does not register the
    new one: the row carries the new configuration while the registry
    has lost the mount.  This covers a missing driver under the old
    path, a failing [Drop] and a failing [Init]. *)
Theorem UpdateStorage_rename_failure (now : Time) st storage (oldStorage : Storage)
    (db' : DB) (storage' : Storage) :
  db.GetStorageById (database st) (ID storage) = inr oldStorage ->
  Driver oldStorage = Driver storage ->
  db.UpdateStorage (database st) (stamped now storage) = (db', storage', None) ->
  MountPath oldStorage <> utils.StandardizePath (MountPath storage) ->
  (UpdateStorage now st storage).1 <> Returned None ->
  let st' := (UpdateStorage now st storage).2 in
  database st' = db' /\
  storagesMap st' = delete (MountPath oldStorage) (storagesMap st) /\
  GetStorageByVirtualPath st' (MountPath oldStorage) = inl (notFound (MountPath oldStorage)) /\
  GetStorageByVirtualPath st' (utils.StandardizePath (MountPath storage))
  = GetStorageByVirtualPath st (utils.StandardizePath (MountPath storage)).
Proof.
  intros Hold Hdrv Hsave Hne.
  assert (MountPath storage' = utils.StandardizePath (MountPath storage)) as Hpath.
  { revert Hsave. unfold db.UpdateStorage.
    destruct (gorm_Save _ _) as [[? ?] ?]. by intros [= _ <- _]. }
  assert (forall st1 : State Drv DB,
            storagesMap st1 = delete (MountPath oldStorage) (storagesMap st) ->
            GetStorageByVirtualPath st1 (MountPath oldStorage)
            = inl (notFound (MountPath oldStorage)) /\
            GetStorageByVirtualPath st1 (utils.StandardizePath (MountPath storage))
            = GetStorageByVirtualPath st (utils.StandardizePath (MountPath storage)))
    as Hlookups.
  { intros st1 Hm. unfold GetStorageByVirtualPath. rewrite Hm.
    by rewrite lookup_delete_eq, lookup_delete_ne. }
  intros Hfail st'. subst st'.
  destruct (UpdateStorage now st storage) as [res st1] eqn:Hrun. simpl in Hfail |- *.
  assert (database st1 = db' /\
          storagesMap st1 = delete (MountPath oldStorage) (storagesMap st)) as [Hdb Hm].
  { revert Hrun. unfold UpdateStorage, GetStorageByVirtualPath, callDrop, callInit.
    rewrite Hold.
    destruct (String.eqb_spec (Driver oldStorage) (Driver storage)) as [_|]; [|done].
    simpl. fold (stamped now storage). rewrite Hsave.
    destruct (String.eqb_spec (MountPath oldStorage) (MountPath storage')) as [Heq|_];
      [congruence|]. simpl.
    destruct (storagesMap st !! MountPath oldStorage) as [l|]; simpl;
      [|by intros [= <- <-]].
    destruct (heap st !! l) as [d|]; simpl; [|by intros [= <- <-]].
    destruct (Drop d) as [d1 [e|]]; simpl; [by intros [= <- <-]|].
    rewrite lookup_insert_eq.
    destruct (Init d1 storage') as [d2 [e|]]; simpl; [by intros [= <- <-]|].
    intros [= <- <-]. by destruct Hfail. }
  split_and!; [done|done|by apply Hlookups..].
Qed.

(** With drivers that expose the configuration they were initialised
    with, a successful [UpdateStorage] leaves under the normalised mount
    path a driver that exposes the configuration as it was written to
    the repository: the request with its new timestamp and normalised
    mount path. *)
Theorem UpdateStorage_exposes_new_config (now : Time) st storage st' :
  InitBinds ->
  UpdateStorage now st storage = (Returned None, st') ->
  exists l,
    GetStorageByVirtualPath st' (utils.StandardizePath (MountPath storage)) = inr l /\
    storageOf (heap st') l = (db.UpdateStorage (database st) (stamped now storage)).1.2 /\
    MountPath (storageOf (heap st') l) = utils.StandardizePath (MountPath storage) /\
    Modified (storageOf (heap st') l) = now.
Proof.
  intros Hbinds Hrun.
  destruct (UpdateStorage_ok now st storage st' Hrun)
    as (old & db' & storage' & l & d & d1 & d2
        & _ & _ & Hsave & Hpath & _ & _ & _ & Hinit & ->).
  exists l. unfold storageOf. simpl. rewrite lookup_insert_eq.
  rewrite (Hbinds _ _ _ Hinit), Hsave. simpl.
  split_and!; [|done..|].
  - apply GetStorageByVirtualPath_Some. simpl. by rewrite Hpath, lookup_insert_eq.
  - revert Hsave. unfold db.UpdateStorage.
    destruct (gorm_Save _ _) as [[? ?] ?]. by intros [= _ <- _].
Qed.

(** Creating a storage at a free mount path and then deleting the row
    that carries this mount path puts the registry back as it was. *)
Theorem CreateStorage_then_DeleteStorageById (now : Time) st storage st1 (id : N)
    (row : Storage) st2 :
  storagesMap st !! utils.StandardizePath (MountPath storage) = None ->
  CreateStorage now st storage = (Returned None, st1) ->
  db.GetStorageById (database st1) id = inr row ->
  MountPath row = utils.StandardizePath (MountPath storage) ->
  DeleteStorageById st1 id = (Returned None, st2) ->
  storagesMap st2 = storagesMap st /\
  GetStorageByVirtualPath st2 (utils.StandardizePath (MountPath storage))
  = inl (notFound (utils.StandardizePath (MountPath storage))).
Proof.
  intros Hfree Hcreate Hrow Hmount Hdelete.
  destruct (CreateStorage_ok now st storage st1 Hcreate)
    as (d0 & db' & storage' & d' & _ & _ & Hpath & _ & ->).
  destruct (DeleteStorageById_ok _ id st2 Hdelete)
    as (row' & l & d & d2 & db2 & Hrow' & _ & _ & _ & _ & ->).
  rewrite Hrow in Hrow'. injection Hrow' as <-.
  simpl. rewrite Hpath, Hmount.
  assert (delete (utils.StandardizePath (MountPath storage))
            (<[utils.StandardizePath (MountPath storage) := fresh (dom (heap st))]>
               (storagesMap st))
          = storagesMap st) as ->.
  { apply map_eq. intros k.
    destruct (decide (k = utils.StandardizePath (MountPath storage))) as [->|Hk].
    - by rewrite lookup_delete_eq.
    - by rewrite lookup_delete_ne, lookup_insert_ne. }
  split; [done|]. by apply GetStorageByVirtualPath_None.
Qed.

End LifecycleMore.

(** ** The registry along a run *)

Section RunsMore.
Context {Drv DB : Type} `{!DriverOps Drv} `{!Gorm DB} {sorter : SliceSorter}.

(** In every state a run reaches from a process that has mounted
    nothing, the registry maps distinct mount paths to distinct driver
    objects, and every registered driver has its object. *)
Theorem registry_wf_invariant (st st' : State Drv DB) :
  storagesMap st = ∅ ->
  reaches st st' ->
  registry_wf (storagesMap st') (heap st').
Proof.
  intros Hempty Hreach. apply (reaches_registry_wf st st' Hreach).
  rewrite Hempty. split; [intros k1 k2 l H|intros k l H]; by rewrite lookup_empty in H.
Qed.

End RunsMore.

(** ** Mount paths along a run *)

Section MountPaths.
Context {Drv DB : Type} `{!DriverOps Drv} `{!Gorm DB} {sorter : SliceSorter}.
Implicit Types (st : State Drv DB) (m : gmap string loc) (h : gmap loc Drv).

Lemma keyed_heap_unregistered m h (l0 : loc) (d0 : Drv) :
  keyed m h -> (forall k, m !! k <> Some l0) -> keyed m (<[l0 := d0]> h).
Proof.
  intros Hk Hno k l Hl. destruct (Hk k l Hl) as (d & Hd & Hp).
  exists d. split; [|done]. rewrite lookup_insert_ne; [done|].
  intros <-. by apply (Hno k).
Qed.

Lemma keyed_heap_same m h (l0 : loc) (d d0 : Drv) :
  keyed m h -> h !! l0 = Some d ->
  MountPath (GetStorage d0) = MountPath (GetStorage d) ->
  keyed m (<[l0 := d0]> h).
Proof.
  intros Hk Hd0 Hsame k l Hl. destruct (Hk k l Hl) as (d' & Hd & Hp).
  destruct (decide (l = l0)) as [->|Hne].
  - exists d0. rewrite lookup_insert_eq. split; [done|]. congruence.
  - exists d'. by rewrite lookup_insert_ne.
Qed.

Lemma keyed_delete m h (k0 : string) : keyed m h -> keyed (delete k0 m) h.
Proof. intros Hk k l [_ Hl]%lookup_delete_Some. by apply Hk. Qed.

Lemma keyed_insert m h (k0 : string) (l0 : loc) (d0 : Drv) :
  keyed m h -> h !! l0 = Some d0 -> MountPath (GetStorage d0) = k0 ->
  keyed (<[k0 := l0]> m) h.
Proof.
  intros Hk Hd Hp k l. rewrite lookup_insert. case_decide as Hc.
  - intros [= <-]. subst k. by exists d0.
  - by apply Hk.
Qed.

Lemma keyed_fresh m h (k : string) : keyed m h -> m !! k <> Some (fresh (dom h)).
Proof.
  intros Hk Hl. destruct (Hk k _ Hl) as (d & Hd & _).
  apply (is_fresh (dom h)). apply elem_of_dom. by exists d.
Qed.

Lemma keyed_inj m h (k1 k2 : string) (l : loc) :
  keyed m h -> m !! k1 = Some l -> m !! k2 = Some l -> k1 = k2.
Proof.
  intros Hk H1 H2. destruct (Hk k1 l H1) as (d1 & Hd1 & <-).
  destruct (Hk k2 l H2) as (d2 & Hd2 & <-). congruence.
Qed.

Hypothesis binds : InitBinds.
Hypothesis keeps : KeepsMountPath.

Lemma CreateStorage_keyed (now : Time) st storage :
  keyed (storagesMap st) (heap st) ->
  keyed (storagesMap (CreateStorage now st storage).2)
        (heap (CreateStorage now st storage).2).
Proof.
  intros Hk. unfold CreateStorage, callInit.
  destruct (GetDriverNew _) as [e|d0]; simpl; [done|].
  assert (keyed (storagesMap st) (<[fresh (dom (heap st)) := d0]> (heap st))) as Hk0.
  { apply keyed_heap_unregistered; [done|]. intros k. by apply keyed_fresh. }
  assert (MountPath (db.CreateStorage (database st)
            (setMountPath (utils.StandardizePath (MountPath storage))
               (setModified now storage))).1.2
          = utils.StandardizePath (MountPath storage)) as Hpath.
  { unfold db.CreateStorage. by destruct (gorm_Create _ _) as [[? ?] ?]. }
  destruct (db.CreateStorage _ _) as [[db' storage'] [e|]]; simpl in *; [done|].
  rewrite lookup_insert_eq. destruct (Init d0 storage') as [d' [e|]] eqn:Hinit; simpl.
  - apply keyed_heap_unregistered; [done|]. intros k. by apply keyed_fresh.
  - apply (keyed_insert _ _ _ _ d').
    + apply keyed_heap_unregistered; [done|]. intros k. by apply keyed_fresh.
    + by rewrite lookup_insert_eq.
    + by rewrite (binds _ _ _ Hinit).
Qed.

Lemma DeleteStorageById_keyed st (id : N) :
  keyed (storagesMap st) (heap st) ->
  keyed (storagesMap (DeleteStorageById st id).2) (heap (DeleteStorageById st id).2).
Proof.
  intros Hk. unfold DeleteStorageById, GetStorageByVirtualPath, callDrop.
  destruct (db.GetStorageById _ _) as [e|storage]; simpl; [done|].
  destruct (storagesMap st !! MountPath storage) as [l|]; simpl; [|done].
  destruct (heap st !! l) as [d|] eqn:Hd; simpl; [|done].
  pose proof (proj1 keeps d) as Hdrop.
  destruct (Drop d) as [d' [e|]]; simpl in *.
  - by apply (keyed_heap_same _ _ _ d).
  - destruct (db.DeleteStorageById _ _) as [db' [e|]]; simpl.
    + by apply (keyed_heap_same _ _ _ d).
    + apply keyed_delete. by apply (keyed_heap_same _ _ _ d).
Qed.

Lemma UpdateStorage_keyed (now : Time) st storage :
  keyed (storagesMap st) (heap st) ->
  keyed (storagesMap (UpdateStorage now st storage).2)
        (heap (UpdateStorage now st storage).2).
Proof.
  intros Hk. unfold UpdateStorage, GetStorageByVirtualPath.
  destruct (db.GetStorageById _ _) as [e|old]; simpl; [done|].
  destruct (negb (String.eqb (Driver old) _)); simpl; [done|].
  destruct (db.UpdateStorage _ _) as [[db' storage'] [e|]]; simpl; [done|].
  destruct (String.eqb_spec (MountPath old) (MountPath storage')) as [Heq|Hne]; simpl.
  - destruct (storagesMap st !! MountPath old) as [l|] eqn:Hl; simpl; [|done].
    unfold callDrop, callInit. simpl.
    destruct (Hk _ _ Hl) as (d & Hd & Hp). rewrite Hd.
    pose proof (proj1 keeps d) as Hdrop.
    destruct (Drop d) as [d1 [e|]]; simpl in *.
    { by apply (keyed_heap_same _ _ _ d). }
    rewrite lookup_insert_eq.
    assert (keyed (storagesMap st) (<[l := d1]> (heap st))) as Hk1
      by (by apply (keyed_heap_same _ _ _ d)).
    pose proof (proj2 keeps d1 storage') as Hinit.
    assert (forall d2, MountPath (GetStorage d2) = MountPath (GetStorage d1) \/
                       MountPath (GetStorage d2) = MountPath storage' ->
                       keyed (storagesMap st) (<[l := d2]> (<[l := d1]> (heap st)))) as Hk2.
    { intros d2 Hd2. apply (keyed_heap_same _ _ _ d1); [done|by rewrite lookup_insert_eq|].
      destruct Hd2 as [->| ->]; [done|]. congruence. }
    destruct (Init d1 storage') as [d2 [e|]] eqn:Hrun; simpl in *.
    { by apply Hk2. }
    apply (keyed_insert _ _ _ _ d2); [by apply Hk2|by rewrite lookup_insert_eq|].
    by rewrite (binds _ _ _ Hrun).
  - destruct (storagesMap st !! MountPath old) as [l|] eqn:Hl; simpl;
      [|by apply keyed_delete].
    unfold callDrop, callInit. simpl.
    destruct (Hk _ _ Hl) as (d & Hd & Hp). rewrite Hd.
    assert (forall k, delete (MountPath old) (storagesMap st) !! k <> Some l) as Hgone.
    { intros k [Hk0 Hk1]%lookup_delete_Some. apply Hk0.
      by apply (keyed_inj (storagesMap st) (heap st) _ _ l). }
    destruct (Drop d) as [d1 [e|]]; simpl.
    { apply keyed_heap_unregistered; [by apply keyed_delete|done]. }
    rewrite lookup_insert_eq.
    destruct (Init d1 storage') as [d2 [e|]] eqn:Hrun; simpl.
    { apply keyed_heap_unregistered; [|done].
      apply keyed_heap_unregistered; [by apply keyed_delete|done]. }
    apply (keyed_insert _ _ _ _ d2); [|by rewrite lookup_insert_eq|].
    + apply keyed_heap_unregistered; [|done].
      apply keyed_heap_unregistered; [by apply keyed_delete|done].
    + by rewrite (binds _ _ _ Hrun).
Qed.

Lemma step_keyed st st' :
  step st st' -> keyed (storagesMap st) (heap st) -> keyed (storagesMap st') (heap st').
Proof.
  destruct 1 as [now st storage|now st storage|st id|es st path]; intros Hk.
  - by apply CreateStorage_keyed.
  - by apply UpdateStorage_keyed.
  - by apply DeleteStorageById_keyed.
  - destruct (GetBalancedStorage_frame es st path) as (-> & -> & _). done.
Qed.

Lemma reaches_keyed st st' :
  reaches st st' -> keyed (storagesMap st) (heap st) -> keyed (storagesMap st') (heap st').
Proof.
  induction 1 as [st|st st1 st2 Hstep _ IH]; [done|].
  intros Hk. by apply IH, (step_keyed st).
Qed.

Lemma keyed_distinct_mounts m h :
  keyed m h -> distinct_mounts h (map_to_list m).*2.
Proof.
  intros Hk. unfold distinct_mounts.
  rewrite <- list_fmap_compose.
  rewrite (list_fmap_ext _ fst (map_to_list m)); [apply NoDup_fst_map_to_list|].
  intros i [k l] Hi. simpl.
  apply list_elem_of_lookup_2, elem_of_map_to_list in Hi.
  destruct (Hk k l Hi) as (d & Hd & Hp). unfold storageOf. by rewrite Hd.
Qed.

End MountPaths.

Section MountPathsSpec.
Context {Drv DB : Type} `{!DriverOps Drv} `{!Gorm DB} {sorter : SliceSorter}.

(** With drivers that expose what they were initialised with and do
    not lose their mount path, in every state a run reaches from a
    process that has mounted nothing every registered driver exposes
    the mount path it is registered under.  So the exposed mount paths
    are pairwise distinct, and [getStoragesByPath] returns the same
    list whatever the order in which [Range] visits the registry and
    whatever [sort.Slice] does with that order. *)
Theorem reached_registry_keyed
    (sorter1 sorter2 : SliceSorter) (st st' : State Drv DB) :
  InitBinds -> KeepsMountPath ->
  SortContract sorter1 -> SortContract sorter2 ->
  storagesMap st = ∅ ->
  reaches (sorter:=sorter) st st' ->
  keyed (storagesMap st') (heap st') /\
  distinct_mounts (heap st') (map_to_list (storagesMap st')).*2 /\
  forall (es es' : list (string * loc)) (path : string),
    RangeOf (storagesMap st') es -> RangeOf (storagesMap st') es' ->
    getStoragesByPath (sorter:=sorter1) (heap st') es path
    = getStoragesByPath (sorter:=sorter2) (heap st') es' path.
Proof.
  intros binds keeps sort_ok1 sort_ok2 Hempty Hreach.
  assert (keyed (storagesMap st') (heap st')) as Hk.
  { apply (reaches_keyed (sorter:=sorter) binds keeps st st' Hreach).
    rewrite Hempty. intros k l H. by rewrite lookup_empty in H. }
  pose proof (keyed_distinct_mounts _ _ Hk) as Hnd.
  split_and!; [done..|].
  intros es es' path Hes Hes'.
  by apply (getStoragesByPath_order_irrelevant _ _ sort_ok1 sort_ok2
              (heap st') (storagesMap st')).
Qed.

End MountPathsSpec.

(** ** Saving a driver's storage *)

Section SaveDriverStorageSpec.
Context {Drv DB Addition : Type} `{!DriverOps Drv} `{!Gorm DB} `{!AdditionOps Drv Addition}.

(** [MustSaveDriverStorage] on a live driver always returns.  It changes
    nothing in memory: the registry, the cursors and the driver objects
    stay as they are, the driver still exposing its old addition.  When
    the addition cannot be marshalled the database is not touched either;
    otherwise the row handed to the repository is the driver's storage
    with the marshalled addition.  A line is logged exactly when the
    save failed. *)
Theorem MustSaveDriverStorage_best_effort (st : State Drv DB) (driver : loc) (d : Drv) :
  heap st !! driver = Some d ->
  let r := MustSaveDriverStorage st driver in
  r.1.1 = Returned tt /\
  storagesMap r.1.2 = storagesMap st /\
  balanceMap r.1.2 = balanceMap st /\
  heap r.1.2 = heap st /\
  (r.2 = [] <-> (saveDriverStorage st driver).1 = Returned None) /\
  (forall e, Json_Marshal (GetAddition d) = inl e ->
     database r.1.2 = database st /\
     r.2 = ["failed save driver storage: error while marshal addition: " +:+ Error e]) /\
  (forall bytes, Json_Marshal (GetAddition d) = inr bytes ->
     database r.1.2
     = (gorm_Save (database st) (setAddition bytes (GetStorage d))).1.1).
Proof.
  intros Hd. cbv zeta. unfold MustSaveDriverStorage, saveDriverStorage, db.UpdateStorage.
  rewrite Hd.
  destruct (Json_Marshal (GetAddition d)) as [e|bytes]; simpl.
  - split_and!; try done. intros e' Heq. injection Heq as Heq. subst e'. split; reflexivity.
  - destruct (gorm_Save (database st) (setAddition bytes (GetStorage d)))
      as [[db' id] [e|]] eqn:Hsave; simpl;
      (split_and!; try done); intros bytes' Heq; injection Heq as Heq; subst bytes';
      by rewrite Hsave.
Qed.

End SaveDriverStorageSpec.

(** ** Opening the database *)

Lemma take_drop_bytes (n : nat) (s : string) :
  Strings.take_bytes n s +:+ Strings.drop_bytes n s = s.
Proof.
  revert s. induction n as [|n IH]; intros s; [done|].
  destruct s as [|c s]; [done|]. simpl. rewrite append_cons. by rewrite IH.
Qed.

Lemma HasSuffix_app (s suffix : string) :
  Strings.HasSuffix s suffix = true <-> exists stem, s = stem +:+ suffix.
Proof.
  unfold Strings.HasSuffix. rewrite andb_true_iff, Nat.leb_le, String.eqb_eq. split.
  - intros [_ Hdrop].
    exists (Strings.take_bytes (String.length s - String.length suffix) s).
    pose proof (take_drop_bytes (String.length s - String.length suffix) s) as Hcut.
    by rewrite Hdrop in Hcut.
  - intros [stem ->]. rewrite length_append. split; [lia|].
    replace (String.length stem + String.length suffix - String.length suffix)%nat
      with (String.length stem) by lia.
    apply drop_bytes_append.
Qed.

Section InitDBSpec.
Context {Handle : Type}.
Variable gorm_Open : bootstrap.Dialector -> string -> error + Handle.

(** The file name [InitDB] accepts for sqlite3: a non-empty stem
    followed by [.db]. *)
Lemma sqlite3_file_name (file : string) :
  Strings.HasSuffix file ".db" && (3 <? String.length file)%nat = true <->
  exists stem, stem <> "" /\ file = stem +:+ ".db".
Proof.
  rewrite andb_true_iff, HasSuffix_app, Nat.ltb_lt. split.
  - intros [[stem ->] Hlen]. exists stem. split; [|done].
    intros ->. simpl in Hlen. lia.
  - intros (stem & Hstem & ->). split; [by exists stem|].
    rewrite length_append. destruct stem; [done|]. simpl. lia.
Qed.

(** When [InitDB] gets as far as [db.Init], the handle is one that
    [gorm.Open] returned without error for the configured table prefix
    and for the backend the configuration selects: the shared in-memory
    sqlite database in development mode whatever the configuration says,
    else the sqlite3 file (whose name is then a non-empty stem followed
    by [.db]), the mysql or the postgres data source. *)
Theorem InitDB_ready (Dev : bool) (database : bootstrap.Database) (dB : Handle) :
  bootstrap.InitDB gorm_Open Dev database = bootstrap.Ready dB ->
  exists dialector,
    gorm_Open dialector (bootstrap.TablePrefix database) = inr dB /\
    (Dev = true /\ dialector = bootstrap.sqlite_Open "file::memory:?cache=shared" \/
     Dev = false /\ bootstrap.Type_ database = "sqlite3" /\
       dialector = bootstrap.sqlite_Open (bootstrap.DBFile database) /\
       (exists stem, stem <> "" /\ bootstrap.DBFile database = stem +:+ ".db") \/
     Dev = false /\ bootstrap.Type_ database = "mysql" /\
       dialector = bootstrap.mysql_Open (bootstrap.mysql_dsn database) \/
     Dev = false /\ bootstrap.Type_ database = "postgres" /\
       dialector = bootstrap.postgres_Open (bootstrap.postgres_dsn database)).
Proof.
  unfold bootstrap.InitDB. destruct Dev.
  - destruct (gorm_Open _ _) as [e|h] eqn:Hopen; [done|]. intros [= <-].
    eexists. split; [exact Hopen|]. by left.
  - destruct (String.eqb_spec (bootstrap.Type_ database) "sqlite3") as [Ht|_].
    + destruct (Strings.HasSuffix _ _ && _) eqn:Hname; simpl; [|done].
      apply sqlite3_file_name in Hname.
      destruct (gorm_Open _ _) as [e|h] eqn:Hopen; [done|]. intros [= <-].
      eexists. split; [exact Hopen|]. right. left. by split_and!.
    + destruct (String.eqb_spec (bootstrap.Type_ database) "mysql") as [Ht|_].
      * destruct (gorm_Open _ _) as [e|h] eqn:Hopen; [done|]. intros [= <-].
        eexists. split; [exact Hopen|]. right. right. left. by split_and!.
      * destruct (String.eqb_spec (bootstrap.Type_ database) "postgres") as [Ht|_]; [|done].
        destruct (gorm_Open _ _) as [e|h] eqn:Hopen; [done|]. intros [= <-].
        eexists. split; [exact Hopen|]. right. right. right. by split_and!.
Qed.

End InitDBSpec.

(** Outside development mode, a sqlite3 configuration whose file name is
    not a non-empty stem followed by [.db] stops [InitDB] with
    [db name error.] whatever [gorm.Open] would have answered: no
    connection is attempted. *)
Theorem InitDB_sqlite3_bad_file_name {Handle : Type}
    (gorm_Open gorm_Open' : bootstrap.Dialector -> string -> error + Handle)
    (database : bootstrap.Database) :
  bootstrap.Type_ database = "sqlite3" ->
  (forall stem, stem <> "" -> bootstrap.DBFile database <> stem +:+ ".db") ->
  bootstrap.InitDB gorm_Open false database = bootstrap.Fatal "db name error." /\
  bootstrap.InitDB gorm_Open' false database = bootstrap.InitDB gorm_Open false database.
Proof.
  intros Ht Hbad. unfold bootstrap.InitDB. rewrite Ht. simpl.
  destruct (Strings.HasSuffix _ _ && _) eqn:Hname; simpl; [|done].
  apply sqlite3_file_name in Hname as (stem & Hstem & Hfile).
  by destruct (Hbad stem Hstem).
Qed.

(** ** These properties at work on the in-memory backend *)

Lemma five_group :
  getStoragesByPath (sorter:=insertion) (heap Mem.five) (Mem.entries Mem.five) "/a/b/x"
  = [0; 3]%nat.
Proof. by vm_compute. Qed.

Lemma five_root_listing :
  GetStorageVirtualFilesByPath (sorter:=insertion) (heap Mem.five)
    (Mem.entries Mem.five).*2 "/"
  = [Object.mk "a" 0 1 true; Object.mk "av" 0 5 true].
Proof. by vm_compute. Qed.

Lemma getStoragesByPath_single_group_witness :
  matchPath (heap Mem.five) 0%nat = matchPath (heap Mem.five) 3%nat /\
  under (matchPath (heap Mem.five) 0%nat) "/a/b/x".
Proof.
  apply (getStoragesByPath_single_group (sorter:=insertion) insertion_contract
           (heap Mem.five) (Mem.entries Mem.five) "/a/b/x" 0%nat 3%nat);
    rewrite five_group, !elem_of_cons; auto.
Defined.

Lemma getStoragesByPath_empty_iff_witness :
  getStoragesByPath (sorter:=insertion) (heap Mem.five) (Mem.entries Mem.five) "/b" = [].
Proof.
  apply (getStoragesByPath_empty_iff (sorter:=insertion) insertion_contract
           (heap Mem.five) (Mem.entries Mem.five) "/b").
  intros l. rewrite five_values, !elem_of_cons, elem_of_nil.
  intros [-> | [-> | [-> | [-> | [-> | []]]]]]; by vm_compute.
Defined.

Lemma getStoragesByPath_own_path_witness :
  storagesMap Mem.five !! "/a/c" = Some 1%nat /\
  1%nat ∈ getStoragesByPath (sorter:=insertion) (heap Mem.five) (Mem.entries Mem.five)
            (matchPath (heap Mem.five) 1%nat).
Proof.
  assert (storagesMap Mem.five !! "/a/c" = Some 1%nat) as Hk by (by vm_compute).
  split; [exact Hk|].
  exact (getStoragesByPath_own_path (sorter:=insertion) insertion_contract
           (heap Mem.five) (storagesMap Mem.five) (Mem.entries Mem.five) "/a/c" 1%nat
           five_entries Hk).
Defined.

Lemma getStoragesByPath_NoDup_witness :
  NoDup (getStoragesByPath (sorter:=insertion) (heap Mem.five) (Mem.entries Mem.five)
           "/a/b/x").
Proof.
  exact (getStoragesByPath_NoDup (sorter:=insertion) insertion_contract
           (heap Mem.five) (storagesMap Mem.five) (Mem.entries Mem.five) "/a/b/x"
           five_entries (proj1 five_registry_wf)).
Defined.

Lemma GetBalancedStorage_touches_one_cursor_witness :
  storagesMap (GetBalancedStorage (sorter:=insertion) (Mem.entries Mem.five)
                 Mem.stale "/a/b/x").2
  = storagesMap Mem.stale.
Proof.
  exact (proj1 (GetBalancedStorage_touches_one_cursor (sorter:=insertion)
                  (Mem.entries Mem.five) Mem.stale "/a/b/x")).
Defined.

Lemma stale_registry : storagesMap Mem.stale = storagesMap Mem.five.
Proof. by vm_compute. Qed.

Lemma stale_heap : heap Mem.stale = heap Mem.five.
Proof. by vm_compute. Qed.

Lemma balanced_calls_fair_window_witness :
  cursors_ok (balanceMap Mem.stale) /\
  (balanced_calls (sorter:=insertion)
     [Mem.entries Mem.five; reverse (Mem.entries Mem.five)] Mem.stale "/a/b/x").1
  ≡ₚ (fun d => Returned (Some d))
       <$> getStoragesByPath (sorter:=insertion) (heap Mem.stale)
             (map_to_list (storagesMap Mem.stale)) (utils.StandardizePath "/a/b/x").
Proof.
  split; [exact stale_cursors_ok|].
  apply (balanced_calls_fair_window insertion_contract
           (getStoragesByPath (sorter:=insertion) (heap Mem.stale)
              (map_to_list (storagesMap Mem.stale)) (utils.StandardizePath "/a/b/x"))
           [Mem.entries Mem.five; reverse (Mem.entries Mem.five)] Mem.stale "/a/b/x").
  - rewrite stale_registry.
    apply Forall_cons_2; [exact five_entries|].
    apply Forall_cons_2; [exact five_entries_reversed|apply Forall_nil_2].
  - rewrite stale_registry, stale_heap. exact five_distinct_mounts.
  - exact eq_refl.
  - vm_compute. lia.
  - unfold max_int. vm_compute. discriminate.
  - exact stale_cursors_ok.
  - by vm_compute.
Defined.

Lemma GetStorageVirtualFilesByPath_listing_witness :
  NoDup (Object.Name <$> GetStorageVirtualFilesByPath (sorter:=insertion) (heap Mem.five)
                           (Mem.entries Mem.five).*2 "/").
Proof.
  exact (proj1 (GetStorageVirtualFilesByPath_listing insertion (heap Mem.five)
                  (Mem.entries Mem.five).*2 "/" insertion_contract)).
Defined.

Lemma GetStorageVirtualFilesByPath_leads_to_mount_witness :
  exists v, v ∈ (Mem.entries Mem.five).*2 /\
    utils.IsBalance (MountPath (storageOf (heap Mem.five) v)) = false /\
    under (dirPrefix "/" +:+ "av") (MountPath (storageOf (heap Mem.five) v)).
Proof.
  refine (proj2 (GetStorageVirtualFilesByPath_leads_to_mount insertion (heap Mem.five)
                   (Mem.entries Mem.five).*2 "/" (Object.mk "av" 0 5 true)
                   insertion_contract _)).
  rewrite five_root_listing, !elem_of_cons. auto.
Defined.

Lemma GetStorageVirtualFilesByPath_deterministic_witness :
  GetStorageVirtualFilesByPath (sorter:=insertion) (heap Mem.five)
    (Mem.entries Mem.five).*2 "/a"
  = GetStorageVirtualFilesByPath (sorter:=insertion) (heap Mem.five)
      (reverse (Mem.entries Mem.five).*2) "/a".
Proof.
  apply (GetStorageVirtualFilesByPath_deterministic insertion insertion (heap Mem.five)
           (Mem.entries Mem.five).*2 (reverse (Mem.entries Mem.five).*2) "/a"
           insertion_contract insertion_contract).
  - symmetry. apply reverse_Permutation.
  - exact five_distinct_mounts.
Defined.

Lemma CreateStorage_failure_witness :
  CreateStorage 1 Mem.boot (mkStorage 0%N "/s3" 0 "S3" "" 0)
  = (Returned (Some (WithMessage (Errorf "no driver named: S3") "failed get driver new")),
     Mem.boot).
Proof.
  exact (proj1 (CreateStorage_failure 1 Mem.boot (mkStorage 0%N "/s3" 0 "S3" "" 0))
           (Errorf "no driver named: S3") eq_refl).
Defined.

Lemma UpdateStorage_in_place_witness :
  storagesMap (UpdateStorage 9 Mem.five (mkStorage 1 "/a/b/" 7 "Local" "" 0)).2
  = storagesMap Mem.five.
Proof.
  refine (proj1 (UpdateStorage_in_place 9 Mem.five (mkStorage 1 "/a/b/" 7 "Local" "" 0)
                   (mkStorage 1 "/a/b" 0 "Local" "" 1)
                   (UpdateStorage 9 Mem.five (mkStorage 1 "/a/b/" 7 "Local" "" 0)).2
                   _ _ _)); by vm_compute.
Defined.

Lemma UpdateStorage_rename_failure_witness :
  let request := mkStorage 1 "/y" 0 "Local" "busy" 0 in
  (UpdateStorage 9 Mem.stuck request).1
  = Returned (Some (WithMessage (Foreign "resource busy") "failed drop storage")) /\
  GetStorageByVirtualPath (UpdateStorage 9 Mem.stuck request).2 "/x"
  = inl (notFound "/x") /\
  GetStorageByVirtualPath (UpdateStorage 9 Mem.stuck request).2
    (utils.StandardizePath "/y")
  = GetStorageByVirtualPath Mem.stuck (utils.StandardizePath "/y").
Proof.
  intros request.
  assert ((UpdateStorage 9 Mem.stuck request).1
          = Returned (Some (WithMessage (Foreign "resource busy") "failed drop storage")))
    as Hfail by (by vm_compute).
  split; [exact Hfail|].
  destruct (UpdateStorage_rename_failure 9 Mem.stuck request
              (mkStorage 1 "/x" 0 "Local" "busy" 1)
              (db.UpdateStorage (database Mem.stuck) (stamped 9 request)).1.1
              (db.UpdateStorage (database Mem.stuck) (stamped 9 request)).1.2)
    as (_ & _ & Hold & Hnew).
  - by vm_compute.
  - reflexivity.
  - by vm_compute.
  - vm_compute. discriminate.
  - rewrite Hfail. discriminate.
  - split; [exact Hold|exact Hnew].
Defined.

Lemma UpdateStorage_exposes_new_config_witness :
  exists l,
    GetStorageByVirtualPath (UpdateStorage 9 Mem.five (mkStorage 1 "/z/" 0 "Local" "" 0)).2
      (utils.StandardizePath "/z/") = inr l /\
    Modified (storageOf (heap (UpdateStorage 9 Mem.five
                                 (mkStorage 1 "/z/" 0 "Local" "" 0)).2) l) = 9.
Proof.
  destruct (UpdateStorage_exposes_new_config 9 Mem.five (mkStorage 1 "/z/" 0 "Local" "" 0)
              (UpdateStorage 9 Mem.five (mkStorage 1 "/z/" 0 "Local" "" 0)).2
              Mem_InitBinds)
    as (l & Hl & _ & _ & Hmod); [by vm_compute|].
  exists l. by split.
Defined.

Lemma CreateStorage_then_DeleteStorageById_witness :
  let st1 := (CreateStorage 1 Mem.boot (Mem.local "/a/b/" 0)).2 in
  (DeleteStorageById st1 1).1 = Returned None /\
  storagesMap (DeleteStorageById st1 1).2 = storagesMap Mem.boot.
Proof.
  intros st1. split; [by vm_compute|].
  refine (proj1 (CreateStorage_then_DeleteStorageById 1 Mem.boot (Mem.local "/a/b/" 0)
                   st1 1%N (mkStorage 1 "/a/b" 0 "Local" "" 1)
                   (DeleteStorageById st1 1).2 _ _ _ _ _)); by vm_compute.
Defined.

Lemma registry_wf_invariant_witness :
  registry_wf (storagesMap Mem.five) (heap Mem.five).
Proof.
  exact (registry_wf_invariant (sorter:=insertion) Mem.boot Mem.five eq_refl
           (mount_all_reaches insertion _ 1 Mem.boot)).
Defined.

Lemma MustSaveDriverStorage_best_effort_witness :
  heap Mem.five !! 0%nat = Some (Mem.mkDrv (mkStorage 1 "/a/b" 0 "Local" "" 1) true) /\
  (MustSaveDriverStorage Mem.five 0%nat).1.1 = Returned tt /\
  heap (MustSaveDriverStorage Mem.five 0%nat).1.2 = heap Mem.five.
Proof.
  assert (heap Mem.five !! 0%nat
          = Some (Mem.mkDrv (mkStorage 1 "/a/b" 0 "Local" "" 1) true)) as Hd
    by (by vm_compute).
  split; [exact Hd|].
  destruct (MustSaveDriverStorage_best_effort Mem.five 0%nat _ Hd)
    as (Hret & _ & _ & Hheap & _).
  by split.
Defined.

Lemma InitDB_ready_witness :
  let database := bootstrap.mkDatabase "sqlite3" "" 0 "" "" "" "data.db" "x_" "" in
  bootstrap.InitDB sqlite_only false database = bootstrap.Ready "data.db" /\
  exists dialector, sqlite_only dialector "x_" = inr "data.db".
Proof.
  intros database.
  assert (bootstrap.InitDB sqlite_only false database = bootstrap.Ready "data.db") as Hrun
    by (by vm_compute).
  split; [exact Hrun|].
  destruct (InitDB_ready sqlite_only false database "data.db" Hrun)
    as (dialector & Hopen & _).
  by exists dialector.
Defined.

Lemma InitDB_sqlite3_bad_file_name_witness :
  let database := bootstrap.mkDatabase "sqlite3" "" 0 "" "" "" ".db" "x_" "" in
  bootstrap.InitDB sqlite_only false database = bootstrap.Fatal "db name error." /\
  bootstrap.InitDB unreachable false database
  = bootstrap.InitDB sqlite_only false database.
Proof.
  intros database.
  apply (InitDB_sqlite3_bad_file_name sqlite_only unreachable database); [reflexivity|].
  intros stem Hstem Heq. apply (f_equal String.length) in Heq.
  rewrite length_append in Heq. destruct stem; [done|]. simpl in Heq. lia.
Defined.

Lemma Mem_KeepsMountPath : @KeepsMountPath Mem.Drv Mem.driver.
Proof.
  split.
  - intros d. simpl. by destruct (String.eqb (Addition (Mem.bound d)) "busy").
  - intros d s. simpl. destruct (String.eqb (Addition s) "unreachable"); simpl; by eauto.
Qed.

Lemma reached_registry_keyed_witness :
  storagesMap Mem.boot = ∅ /\
  reaches (sorter:=insertion) Mem.boot Mem.five /\
  distinct_mounts (heap Mem.five) (map_to_list (storagesMap Mem.five)).*2.
Proof.
  split; [reflexivity|]. split; [apply mount_all_reaches|].
  exact (proj1 (proj2 (reached_registry_keyed (sorter:=insertion) insertion insertion
                         Mem.boot Mem.five Mem_InitBinds Mem_KeepsMountPath
                         insertion_contract insertion_contract eq_refl
                         (mount_all_reaches insertion _ 1 Mem.boot)))).
Defined.
